(** * node-zenhub: the ZenHub API client of [lib/zenhub.js]

    A shallow embedding of the client and of the JavaScript operations it
    relies on, followed by the properties of its request construction and
    of its error reporting.

    - JavaScript values are the tree [value]: the values a JSON decoder
      produces, [undefined], and [Error] objects.
    - Objects that the code allocates and could mutate (the credentials of
      a client, the query parameters) live in a store, [heap], and are
      passed by address.
    - The code runs in the monad [M]: the store, the requests handed to
      the transport, the invocations of the caller's callback, and a
      thrown exception.
    - The [request] package is the parameter [transport]: it maps a verb
      and the request options to the triple it completes the request with,
      and calls the completion function once with it. *)

From Stdlib Require Import ZArith String Ascii List Bool Lia DecimalString.
From stdpp Require Import base gmap strings list.

#[local] Set Warnings "-register-all".

Local Open Scope string_scope.
Local Open Scope Z_scope.

(** * The model

    ** JavaScript values *)

(** Strings are sequences of 8-bit characters, each standing for the UTF-16
    code unit of the same number: the strings of the model are those
    whose code units are below 256. Numbers are the integers (the
    repository and issue identifiers of the API; a JavaScript number that
    is a safe integer has the truth value, the strict equality and the
    decimal text of the integer). *)
Inductive value : Type :=
| VUndefined
| VNull
| VBool (b : bool)
| VNum (n : Z)
| VStr (s : string)
| VArr (items : list value)
| VObj (props : list (string * value))
| VError (message : string).

(** An object is the ordered list of its own properties, keys unique. *)
Abbreviation object := (list (string * value)).

Inductive exn : Type := TypeError.

Inductive result (A : Type) : Type :=
| Ok (a : A)
| Throw (e : exn).
Arguments Ok {A} a.
Arguments Throw {A} e.

(** [o[k]] on the own properties of an object. *)
Fixpoint obj_get (k : string) (o : object) : option value :=
  match o with
  | [] => None
  | (k', v) :: o' => if String.eqb k' k then Some v else obj_get k o'
  end.

(** [o[k] = v]: an existing property keeps its place, a new one is added
    last (the order of the keys that are not array indices, as all the
    keys of the client are). *)
Fixpoint obj_set (k : string) (v : value) (o : object) : object :=
  match o with
  | [] => [(k, v)]
  | (k', v') :: o' =>
      if String.eqb k' k then (k', v) :: o' else (k', v') :: obj_set k v o'
  end.

Definition has_own (k : string) (o : object) : bool :=
  match obj_get k o with Some _ => true | None => false end.

(** [ToBoolean]. *)
Definition ToBoolean (v : value) : bool :=
  match v with
  | VUndefined | VNull => false
  | VBool b => b
  | VNum n => negb (n =? 0)
  | VStr s => negb (String.eqb s "")
  | VArr _ | VObj _ | VError _ => true
  end.

(** The property [k] of a value that is neither [undefined] nor [null],
    for the names the client reads ([status], [description],
    [error_message], [pipelines]): none of them is on a prototype, so an
    object has it when it is an own property, and a primitive, an array
    or an Error does not have it. *)
Definition field (k : string) (v : value) : value :=
  match v with
  | VObj props =>
      match obj_get k props with Some x => x | None => VUndefined end
  | _ => VUndefined
  end.

(** [v.k]: reading a property of [undefined] or [null] throws a
    TypeError. *)
Definition get_prop (v : value) (k : string) : result value :=
  match v with
  | VUndefined | VNull => Throw TypeError
  | _ => Ok (field k v)
  end.

(** [v !== s] against a string. *)
Definition strict_neq_str (v : value) (s : string) : bool :=
  match v with
  | VStr s' => negb (String.eqb s' s)
  | _ => true
  end.

(** The decimal text of an integer number. *)
Definition Number_toString (n : Z) : string :=
  NilZero.string_of_int (Z.to_int n).

(** [ToString]. An array is joined with commas, [undefined] and [null]
    items giving the empty text. A plain object gives [[object Object]]
    through [Object.prototype.toString], unless an own property named
    [toString] (decoded data, so not a function) hides that method: then
    no conversion is left and a TypeError is thrown. *)
Fixpoint ToString (v : value) : result string :=
  match v with
  | VUndefined => Ok "undefined"
  | VNull => Ok "null"
  | VBool b => Ok (if b then "true" else "false")
  | VNum n => Ok (Number_toString n)
  | VStr s => Ok s
  | VArr items =>
      (fix join (l : list value) : result string :=
         match l with
         | [] => Ok ""
         | x :: l' =>
             match
               match x with
               | VUndefined | VNull => Ok ""
               | _ => ToString x
               end
             with
             | Throw e => Throw e
             | Ok s =>
                 match l' with
                 | [] => Ok s
                 | _ :: _ =>
                     match join l' with
                     | Throw e => Throw e
                     | Ok r => Ok (s ++ "," ++ r)
                     end
                 end
             end
         end) items
  | VObj props =>
      if has_own "toString" props then Throw TypeError
      else Ok "[object Object]"
  | VError m => Ok (if String.eqb m "" then "Error" else "Error: " ++ m)
  end.

(** [a || b], with [b] evaluated only when [a] is falsy. *)
Definition js_or (a : value) (b : result value) : result value :=
  if ToBoolean a then Ok a else b.

(** [new Error(m)]: the message is [ToString(m)], and is empty when [m]
    is [undefined]. *)
Definition new_Error (m : value) : result value :=
  match m with
  | VUndefined => Ok (VError "")
  | _ => match ToString m with
         | Ok s => Ok (VError s)
         | Throw e => Throw e
         end
  end.

(** [s + v] with a string on the left. *)
Definition concat (s : string) (v : value) : result string :=
  match ToString v with
  | Ok t => Ok (s ++ t)
  | Throw e => Throw e
  end.

(** ** The store and the monad of the client *)

Definition loc : Type := positive.

Inductive verb : Type := GET | POST | PUT.

(** The options object handed to [request.get], [request.post] and
    [request.put]; [body] is absent for a GET. *)
Record options : Type := {
  url : string;
  strictSSL : bool;
  json : bool;
  body : option value
}.

Record state : Type := {
  heap : gmap loc object;
  sent : list (verb * options);
  calls : list (value * value)
}.

Definition M (A : Type) : Type := state -> result A * state.

Definition ret {A} (a : A) : M A := fun s => (Ok a, s).

Definition bind {A B} (m : M A) (k : A -> M B) : M B :=
  fun s =>
    match m s with
    | (Ok a, s') => k a s'
    | (Throw e, s') => (Throw e, s')
    end.

Notation "x <- m ;; k" := (bind m (fun x => k))
  (at level 100, m at next level, right associativity).
Notation "m ;; k" := (bind m (fun _ => k))
  (at level 100, right associativity).

(** A pure operation that may throw. *)
Definition lift {A} (r : result A) : M A := fun s => (r, s).

(** The object literal [{...}]: a new object at an unused address. *)
Definition alloc (o : object) : M loc :=
  fun s =>
    let l := fresh (dom (heap s)) in
    (Ok l, {| heap := <[l := o]> (heap s); sent := sent s; calls := calls s |}).

(** The own properties of the object at [l]. *)
Definition own_props (l : loc) : M object :=
  fun s => (Ok (default [] (heap s !! l)), s).

(** [l[k]]. *)
Definition load (l : loc) (k : string) : M value :=
  o <- own_props l ;;
  ret (match obj_get k o with Some v => v | None => VUndefined end).

(** [l[k] = v]. *)
Definition store (l : loc) (k : string) (v : value) : M unit :=
  fun s =>
    (Ok tt,
     {| heap := <[l := obj_set k v (default [] (heap s !! l))]> (heap s);
        sent := sent s; calls := calls s |}).

(** ** The packages the client requires *)

(** [xtend]: [extend(a, b, ...)] makes a new object and copies into it
    the own properties of each argument in turn, a later argument
    overwriting an earlier one. *)
Fixpoint copy_keys (target source : loc) (keys : list string) : M unit :=
  match keys with
  | [] => ret tt
  | key :: keys' =>
      v <- load source key ;;
      store target key v ;;
      copy_keys target source keys'
  end.

Fixpoint copy_sources (target : loc) (sources : list loc) : M unit :=
  match sources with
  | [] => ret tt
  | source :: sources' =>
      o <- own_props source ;;
      copy_keys target source (map fst o) ;;
      copy_sources target sources'
  end.

Definition extend (sources : list loc) : M loc :=
  target <- alloc [] ;;
  copy_sources target sources ;;
  ret target.

(** [querystring.escape]: the characters [A-Z a-z 0-9 - _ . ! ~ * ' ( )]
    are kept; any other code unit is written as the bytes of its UTF-8
    encoding, each byte as [%XX] in upper-case hexadecimal. *)
Definition hex_digit (n : N) : ascii :=
  ascii_of_N (if (n <? 10)%N then 48 + n else 55 + n).

Definition hexTable (n : N) : string :=
  String "%" (String (hex_digit (n / 16)) (String (hex_digit (n mod 16)) "")).

Definition noEscape (c : N) : bool :=
  ((c =? 33) || (39 <=? c) && (c <=? 42) || (c =? 45) || (c =? 46)
   || (48 <=? c) && (c <=? 57) || (65 <=? c) && (c <=? 90) || (c =? 95)
   || (97 <=? c) && (c <=? 122) || (c =? 126))%N.

Definition encodeChar (ch : ascii) : string :=
  let c := N_of_ascii ch in
  if (c <? 128)%N then
    if noEscape c then String ch "" else hexTable c
  else
    hexTable (N.lor 192 (N.shiftr c 6)) ++ hexTable (N.lor 128 (N.land c 63)).

Fixpoint qsEscape (str : string) : string :=
  match str with
  | "" => ""
  | String ch rest => encodeChar ch ++ qsEscape rest
  end.

Definition stringifyPrimitive (v : value) : string :=
  match v with
  | VStr s => s
  | VNum n => Number_toString n
  | VBool b => if b then "true" else "false"
  | _ => ""
  end.

(** The fields of one array-valued key: [ks + v[j]], separated by [&]. *)
Fixpoint stringify_items (ks : string) (items : list value) : string :=
  match items with
  | [] => ""
  | v :: items' =>
      ks ++ qsEscape (stringifyPrimitive v)
         ++ (match items' with [] => "" | _ :: _ => "&" end)
         ++ stringify_items ks items'
  end.

(** [querystring.stringify(obj)] with the default separators: the loop
    over the own properties, [fields] being the text made so far. A
    property gives one [key=value] field, an array one field per item
    and none when it is empty; [&] is written before a field when
    [fields] is not empty. *)
Definition with_sep (fields : string) : string :=
  if String.eqb fields "" then "" else fields ++ "&".

Fixpoint stringify_loop (fields : string) (o : object) : string :=
  match o with
  | [] => fields
  | (k, v) :: o' =>
      let ks := qsEscape k ++ "=" in
      match v with
      | VArr [] => stringify_loop fields o'
      | VArr items =>
          stringify_loop (with_sep fields ++ stringify_items ks items) o'
      | _ =>
          stringify_loop
            (with_sep fields ++ ks ++ qsEscape (stringifyPrimitive v)) o'
      end
  end.

Definition stringify_fields (o : object) : string := stringify_loop "" o.

Definition stringify (obj : loc) : M string :=
  o <- own_props obj ;;
  ret (stringify_fields o).

(** [request]: what the transport completes a request with. On success
    [error] is [null]; [body] is the decoded response body, [undefined]
    when there is none. *)
Record reply : Type := {
  reply_error : value;
  reply_response : value;
  reply_body : value
}.

Definition transport : Type := verb -> options -> reply.

(** [request.get(options, complete)] and its siblings: the request is
    handed to the transport, which calls [complete] once with its
    reply. An exception thrown by [complete] ends the run. *)
Definition request (tr : transport) (v : verb) (o : options)
    (complete : value -> value -> value -> M unit) : M unit :=
  fun s =>
    let r := tr v o in
    complete (reply_error r) (reply_response r) (reply_body r)
      {| heap := heap s; sent := (sent s ++ [(v, o)])%list; calls := calls s |}.

(** ** The client *)

Definition API_URL : string := "https://api.zenhub.io/p1".

Record ZenHub : Type := { credentials : loc }.

Definition callback_t : Type := value -> value -> M unit.

(** [new ZenHub(token)]. *)
Definition new_ZenHub (token : value) : M ZenHub :=
  c <- alloc [("access_token", token)] ;;
  ret {| credentials := c |}.

(** [a && b]. *)
Definition js_and (a b : M bool) : M bool :=
  x <- a ;;
  if x then b else ret false.

(** [body || {}]. *)
Definition body_or_empty (body : value) : value :=
  if ToBoolean body then body else VObj [].

(** The function [_get] completes its request with. *)
Definition get_complete (callback : callback_t)
    (error response body : value) : M unit :=
  failed <- js_and
              (js_and (ret (negb (ToBoolean error)))
                      (status <- lift (get_prop body "status") ;;
                       ret (negb (negb (ToBoolean status)))))
              (status <- lift (get_prop body "status") ;;
               ret (strict_neq_str status "OK")) ;;
  error <- (if failed : bool then
              description <- lift (get_prop body "description") ;;
              message <- lift (js_or description
                                 (get_prop body "error_message")) ;;
              lift (new_Error message)
            else ret error) ;;
  callback error (body_or_empty body).

Definition _get (tr : transport) (this : ZenHub) (url : string)
    (parameters : loc) (callback : callback_t) : M unit :=
  parameters <- extend [parameters; credentials this] ;;
  query <- stringify parameters ;;
  let getURL := API_URL ++ "/" ++ url ++ "?" ++ query in
  request tr GET
    {| url := getURL; strictSSL := true; json := true; body := None |}
    (get_complete callback).

(** The function [_post] completes its request with. *)
Definition post_complete (callback : callback_t)
    (error response body : value) : M unit :=
  callback error (body_or_empty body).

Definition _post (tr : transport) (this : ZenHub) (url : string)
    (parameters : loc) (body : value) (callback : callback_t) : M unit :=
  parameters <- extend [parameters; credentials this] ;;
  query <- stringify parameters ;;
  let postURL := API_URL ++ "/" ++ url ++ "?" ++ query in
  request tr POST
    {| url := postURL; strictSSL := true; json := true; body := Some body |}
    (post_complete callback).

(** The function [_put] completes its request with. *)
Definition put_complete (callback : callback_t)
    (error response body : value) : M unit :=
  callback error (body_or_empty body).

Definition _put (tr : transport) (this : ZenHub) (url : string)
    (parameters : loc) (body : value) (callback : callback_t) : M unit :=
  parameters <- extend [parameters; credentials this] ;;
  query <- stringify parameters ;;
  let putURL := API_URL ++ "/" ++ url ++ "?" ++ query in
  request tr PUT
    {| url := putURL; strictSSL := true; json := true; body := Some body |}
    (put_complete callback).

(** The endpoint methods. The arguments are evaluated in order: the
    path, then the literal [{}], then the function. *)
Definition getBoard (tr : transport) (this : ZenHub) (repoId : value)
    (callback : callback_t) : M unit :=
  p <- lift (concat "repositories/" repoId) ;;
  parameters <- alloc [] ;;
  _get tr this (p ++ "/board") parameters
    (fun error body =>
       pipelines <- lift (get_prop body "pipelines") ;;
       callback error pipelines).

Definition getIssue (tr : transport) (this : ZenHub)
    (repoId issueNumber : value) (callback : callback_t) : M unit :=
  p <- lift (concat "repositories/" repoId) ;;
  p <- lift (concat (p ++ "/issues/") issueNumber) ;;
  parameters <- alloc [] ;;
  _get tr this p parameters (fun error body => callback error body).

Definition getIssueEvents (tr : transport) (this : ZenHub)
    (repoId issueNumber : value) (callback : callback_t) : M unit :=
  p <- lift (concat "repositories/" repoId) ;;
  p <- lift (concat (p ++ "/issues/") issueNumber) ;;
  parameters <- alloc [] ;;
  _get tr this (p ++ "/events") parameters
    (fun error body => callback error body).

Definition getEpics (tr : transport) (this : ZenHub) (repoId : value)
    (callback : callback_t) : M unit :=
  p <- lift (concat "repositories/" repoId) ;;
  parameters <- alloc [] ;;
  _get tr this (p ++ "/epics") parameters
    (fun error body => callback error body).

Definition getEpicData (tr : transport) (this : ZenHub)
    (repoId epicId : value) (callback : callback_t) : M unit :=
  p <- lift (concat "repositories/" repoId) ;;
  p <- lift (concat (p ++ "/epics/") epicId) ;;
  parameters <- alloc [] ;;
  _get tr this p parameters (fun error body => callback error body).

Definition addRemoveIssuesToEpic (tr : transport) (this : ZenHub)
    (repoId epicId payload : value) (callback : callback_t) : M unit :=
  p <- lift (concat "repositories/" repoId) ;;
  p <- lift (concat (p ++ "/epics/") epicId) ;;
  parameters <- alloc [] ;;
  _post tr this (p ++ "/update_issues") parameters payload
    (fun error body => callback error body).

Definition convertIssueToEpic (tr : transport) (this : ZenHub)
    (repoId issueId payload : value) (callback : callback_t) : M unit :=
  p <- lift (concat "repositories/" repoId) ;;
  p <- lift (concat (p ++ "/issues/") issueId) ;;
  parameters <- alloc [] ;;
  _post tr this (p ++ "/convert_to_epic") parameters payload
    (fun error body => callback error body).

Definition setEstimateForIssue (tr : transport) (this : ZenHub)
    (repoId issueId payload : value) (callback : callback_t) : M unit :=
  p <- lift (concat "repositories/" repoId) ;;
  p <- lift (concat (p ++ "/issues/") issueId) ;;
  parameters <- alloc [] ;;
  _put tr this (p ++ "/estimate") parameters payload
    (fun error body => callback error body).

(** ** Calls of the public interface *)

(** One call of an endpoint method, with its arguments. *)
Inductive invocation : Type :=
| GetBoard (repoId : value)
| GetIssue (repoId issueNumber : value)
| GetIssueEvents (repoId issueNumber : value)
| GetEpics (repoId : value)
| GetEpicData (repoId epicId : value)
| AddRemoveIssuesToEpic (repoId epicId payload : value)
| ConvertIssueToEpic (repoId issueId payload : value)
| SetEstimateForIssue (repoId issueId payload : value).

Definition invoke (tr : transport) (this : ZenHub) (i : invocation)
    (callback : callback_t) : M unit :=
  match i with
  | GetBoard r => getBoard tr this r callback
  | GetIssue r n => getIssue tr this r n callback
  | GetIssueEvents r n => getIssueEvents tr this r n callback
  | GetEpics r => getEpics tr this r callback
  | GetEpicData r e => getEpicData tr this r e callback
  | AddRemoveIssuesToEpic r e p => addRemoveIssuesToEpic tr this r e p callback
  | ConvertIssueToEpic r n p => convertIssueToEpic tr this r n p callback
  | SetEstimateForIssue r n p => setEstimateForIssue tr this r n p callback
  end.

(** The caller's callback, as an observer: it records its arguments. *)
Definition notify : callback_t :=
  fun error result s =>
    (Ok tt,
     {| heap := heap s; sent := sent s;
        calls := (calls s ++ [(error, result)])%list |}).

Definition initial : state := {| heap := ∅; sent := []; calls := [] |}.

(** A client is constructed with [token], one endpoint method is called
    on it, and the transport completes the request. *)
Definition session (tr : transport) (token : value) (i : invocation) : M unit :=
  this <- new_ZenHub token ;;
  invoke tr this i notify.

(** A client is constructed with [token] and one of its helpers is
    called as the endpoint methods call it, with the parameters [{}]. *)
Definition helper_session (tr : transport) (token : value) (v : verb)
    (path : string) (payload : value) : M unit :=
  this <- new_ZenHub token ;;
  parameters <- alloc [] ;;
  match v with
  | GET => _get tr this path parameters notify
  | POST => _post tr this path parameters payload notify
  | PUT => _put tr this path parameters payload notify
  end.

(** The transport that completes every request with the same triple. *)
Definition replying (error response body : value) : transport :=
  fun _ _ =>
    {| reply_error := error; reply_response := response; reply_body := body |}.

(** ** The documented interface

    The table of endpoint methods of the specification: the verb, the
    path template with a hole for each identifier, and the result. *)

(** A piece of a path template. *)
Inductive segment : Type :=
| Lit (s : string)
| Hole (n : nat).

Definition documented_path (i : invocation) : list segment :=
  match i with
  | GetBoard _ => [Lit "repositories/"; Hole 0; Lit "/board"]
  | GetIssue _ _ => [Lit "repositories/"; Hole 0; Lit "/issues/"; Hole 1]
  | GetIssueEvents _ _ =>
      [Lit "repositories/"; Hole 0; Lit "/issues/"; Hole 1; Lit "/events"]
  | GetEpics _ => [Lit "repositories/"; Hole 0; Lit "/epics"]
  | GetEpicData _ _ => [Lit "repositories/"; Hole 0; Lit "/epics/"; Hole 1]
  | AddRemoveIssuesToEpic _ _ _ =>
      [Lit "repositories/"; Hole 0; Lit "/epics/"; Hole 1;
       Lit "/update_issues"]
  | ConvertIssueToEpic _ _ _ =>
      [Lit "repositories/"; Hole 0; Lit "/issues/"; Hole 1;
       Lit "/convert_to_epic"]
  | SetEstimateForIssue _ _ _ =>
      [Lit "repositories/"; Hole 0; Lit "/issues/"; Hole 1; Lit "/estimate"]
  end.

Definition documented_verb (i : invocation) : verb :=
  match i with
  | GetBoard _ | GetIssue _ _ | GetIssueEvents _ _ | GetEpics _
  | GetEpicData _ _ => GET
  | AddRemoveIssuesToEpic _ _ _ | ConvertIssueToEpic _ _ _ => POST
  | SetEstimateForIssue _ _ _ => PUT
  end.

(** The result column of the documented table: the body the helper
    delivers, [body || {}], and for [getBoard] its [pipelines]. *)
Definition documented_result (i : invocation) (b : value) : value :=
  match i with
  | GetBoard _ => field "pipelines" (body_or_empty b)
  | _ => body_or_empty b
  end.

(** The identifiers given to a call, in the order of its parameters, and
    its payload. *)
Definition identifiers (i : invocation) : list value :=
  match i with
  | GetBoard r | GetEpics r => [r]
  | GetIssue r n | GetIssueEvents r n | GetEpicData r n
  | AddRemoveIssuesToEpic r n _ | ConvertIssueToEpic r n _
  | SetEstimateForIssue r n _ => [r; n]
  end.

Definition payload (i : invocation) : option value :=
  match i with
  | AddRemoveIssuesToEpic _ _ p | ConvertIssueToEpic _ _ p
  | SetEstimateForIssue _ _ p => Some p
  | _ => None
  end.

(** Writing the texts of the identifiers into the holes of a template. *)
Fixpoint interpose (t : list segment) (ids : list string) : string :=
  match t with
  | [] => ""
  | Lit s :: t' => s ++ interpose t' ids
  | Hole n :: t' => nth n ids "" ++ interpose t' ids
  end.

(** The texts of a list of values, when each of them has one. *)
Fixpoint texts (l : list value) : result (list string) :=
  match l with
  | [] => Ok []
  | v :: l' =>
      match ToString v, texts l' with
      | Ok s, Ok r => Ok (s :: r)
      | Throw e, _ | _, Throw e => Throw e
      end
  end.

(** ** The parts of a run *)

(** What a method hands to the caller's callback as the result: the body
    its helper delivers, and for [getBoard] the [pipelines] of it. *)
Definition deliver (i : invocation) (callback : callback_t) : callback_t :=
  match i with
  | GetBoard _ =>
      fun error body =>
        pipelines <- lift (get_prop body "pipelines") ;;
        callback error pipelines
  | _ => fun error body => callback error body
  end.

Definition helper_complete (v : verb) :
    callback_t -> value -> value -> value -> M unit :=
  match v with
  | GET => get_complete
  | POST => post_complete
  | PUT => put_complete
  end.

Definition set_heap (h : gmap loc object) (s : state) : state :=
  {| heap := h; sent := sent s; calls := calls s |}.

(** The copy loop of [extend], on the properties themselves. *)
Fixpoint copy_pure (source : object) (keys : list string) (target : object)
  : object :=
  match keys with
  | [] => target
  | key :: keys' =>
      copy_pure source keys'
        (obj_set key
           (match obj_get key source with Some v => v | None => VUndefined end)
           target)
  end.

Definition merged (P C : object) : object :=
  copy_pure C (map fst C) (copy_pure P (map fst P) []).

(** The options of the request for a path and a merged parameter
    object. *)
Definition options_for (path : string) (m : object) (b : option value)
  : options :=
  {| url := API_URL ++ "/" ++ path ++ "?" ++ stringify_fields m;
     strictSSL := true; json := true; body := b |}.

(** The state in which the request completes: the merged parameters are
    a new object, and the request has gone to the transport. *)
Definition after_send (v : verb) (o : options) (m : object) (s : state)
  : state :=
  {| heap := <[fresh (dom (heap s)) := m]> (heap s);
     sent := (sent s ++ [(v, o)])%list;
     calls := calls s |}.

(** A helper, from a state in which its parameter object and the
    credentials exist: the request it sends and the completion it runs. *)
Definition completes (v : verb) (tr : transport) (path : string)
    (m : object) (b : option value) (callback : callback_t) (s : state)
  : result unit * state :=
  let o := options_for path m b in
  let r := tr v o in
  helper_complete v callback (reply_error r) (reply_response r)
    (reply_body r) (after_send v o m s).

(** The state after the literal [{}] of a method. *)
Definition with_parameters (s : state) : state :=
  set_heap (<[fresh (dom (heap s)) := []]> (heap s)) s.

(** The state after [new ZenHub(token)]. *)
Definition with_credentials (token : value) (s : state) : state :=
  set_heap (<[fresh (dom (heap s)) := [("access_token", token)]]> (heap s)) s.

(** ** Notions used in the statements *)

(** [m] leaves the component [f] of the state as it found it, whether it
    returns or throws. *)
Definition preserves {A X : Type} (f : state -> X) (m : M A) : Prop :=
  forall s, f (snd (m s)) = f s.

(** The text the synthesized error is made from:
    [body.description || body.error_message]. *)
Definition failure_text (b : value) : value :=
  if ToBoolean (field "description" b) then field "description" b
  else field "error_message" b.

(** The state in which the request of a session completes. *)
Definition sent_state (token : value) (i : invocation) (ts : list string)
    (s : state) : state :=
  after_send (documented_verb i)
    (options_for (interpose (documented_path i) ts)
       [("access_token", token)] (payload i))
    [("access_token", token)]
    (with_parameters (with_credentials token s)).

(** The size of a value, to tell a value from its parts. *)
Fixpoint value_size (v : value) : nat :=
  match v with
  | VArr items =>
      S ((fix go (l : list value) : nat :=
            match l with
            | [] => O
            | x :: l' => (value_size x + go l')%nat
            end) items)
  | VObj props =>
      S ((fix go (l : list (string * value)) : nat :=
            match l with
            | [] => O
            | (_, x) :: l' => (value_size x + go l')%nat
            end) props)
  | _ => 1%nat
  end.

(** Every object of [s] is in [s'] with the same properties. *)
Definition objects_kept (s s' : state) : Prop :=
  forall l o, heap s !! l = Some o -> heap s' !! l = Some o.

(** ** Reading a URL and a query string back *)

(** The text of [s] before the first [c] (all of [s] without a [c]), the
    text after it (empty without a [c]), and whether [c] occurs. *)
Fixpoint before (c : ascii) (s : string) : string :=
  match s with
  | "" => ""
  | String ch rest => if Ascii.eqb ch c then "" else String ch (before c rest)
  end.

Fixpoint after (c : ascii) (s : string) : string :=
  match s with
  | "" => ""
  | String ch rest => if Ascii.eqb ch c then rest else after c rest
  end.

Fixpoint occurs (c : ascii) (s : string) : bool :=
  match s with
  | "" => false
  | String ch rest => Ascii.eqb ch c || occurs c rest
  end.

(** The query of a URL: what follows the first [?], up to a [#]. *)
Definition url_query (u : string) : string := after "?" (before "#" u).

(** The pieces of [s] between the occurrences of [c]. *)
Fixpoint split_on (c : ascii) (s : string) : list string :=
  match s with
  | "" => [""]
  | String ch rest =>
      if Ascii.eqb ch c then "" :: split_on c rest
      else match split_on c rest with
           | [] => [String ch ""]
           | piece :: pieces => String ch piece :: pieces
           end
  end.

Definition hex_value (ch : ascii) : option N :=
  let c := N_of_ascii ch in
  if ((48 <=? c) && (c <=? 57))%N then Some (c - 48)%N
  else if ((65 <=? c) && (c <=? 70))%N then Some (c - 55)%N
  else if ((97 <=? c) && (c <=? 102))%N then Some (c - 87)%N
  else None.

Definition hex_byte (h1 h2 : ascii) : option N :=
  match hex_value h1, hex_value h2 with
  | Some a, Some b => Some (16 * a + b)%N
  | _, _ => None
  end.

(** Decoding a key or a value of a query string: [+] is a space, [%XX]
    is a byte of the UTF-8 encoding of a code unit. [None] stands for a
    malformed escape and for a code unit above 255, which the strings of
    this development do not have. *)
Fixpoint unescape (s : string) : option string :=
  match s with
  | "" => Some ""
  | String ch rest =>
      if Ascii.eqb ch "%" then
        match rest with
        | String h1 (String h2 rest1) =>
            match hex_byte h1 h2 with
            | Some byte =>
                if (byte <? 128)%N then
                  String (ascii_of_N byte) <$> unescape rest1
                else if ((194 <=? byte) && (byte <=? 195))%N then
                  match rest1 with
                  | String pc (String h3 (String h4 rest2)) =>
                      match hex_byte h3 h4 with
                      | Some cont =>
                          if Ascii.eqb pc "%"
                             && (128 <=? cont)%N && (cont <=? 191)%N
                          then
                            String
                              (ascii_of_N ((byte - 192) * 64 + (cont - 128)))
                              <$> unescape rest2
                          else None
                      | None => None
                      end
                  | _ => None
                  end
                else None
            | None => None
            end
        | _ => None
        end
      else if Ascii.eqb ch "+" then String " " <$> unescape rest
      else String ch <$> unescape rest
  end.

Fixpoint parse_pieces (pieces : list string)
  : option (list (string * string)) :=
  match pieces with
  | [] => Some []
  | piece :: pieces' =>
      if String.eqb piece "" then parse_pieces pieces'
      else
        match unescape (before "=" piece), unescape (after "=" piece),
              parse_pieces pieces' with
        | Some k, Some v, Some r => Some ((k, v) :: r)
        | _, _, _ => None
        end
  end.

(** The parameters of a query string, in order, as [querystring.parse]
    and the parsers of form data read them: the fields are separated by
    [&], and the key of a field ends at its first [=]. *)
Definition parse (q : string) : option (list (string * string)) :=
  parse_pieces (split_on "&" q).

(** The characters with a meaning in a URL or in a query string. *)
Definition delimiter (c : ascii) : Prop :=
  c = "&"%char \/ c = "="%char \/ c = "#"%char \/ c = "?"%char \/
  c = "+"%char.

(** A text without [?] and without [#]: it can stand in the path of a
    URL without ending it. *)
Definition plain (t : string) : bool :=
  negb (occurs "?" t) && negb (occurs "#" t).

(** ** Calls of the helpers and runs of several calls *)

(** A call of the helper of a verb. *)
Definition call_helper (v : verb) (tr : transport) (this : ZenHub)
    (path : string) (parameters : loc) (payload : value)
    (callback : callback_t) : M unit :=
  match v with
  | GET => _get tr this path parameters callback
  | POST => _post tr this path parameters payload callback
  | PUT => _put tr this path parameters payload callback
  end.

(** The request body a helper sends. *)
Definition helper_body (v : verb) (payload : value) : option value :=
  match v with
  | GET => None
  | POST | PUT => Some payload
  end.

(** The parameters a query string made from an object stands for: one
    per property, and for an array one per item. *)
Definition field_values (v : value) : list string :=
  match v with
  | VArr items => map stringifyPrimitive items
  | _ => [stringifyPrimitive v]
  end.

Fixpoint flatten (o : object) : list (string * string) :=
  match o with
  | [] => []
  | (k, v) :: o' => (map (pair k) (field_values v) ++ flatten o')%list
  end.

(** A text that reads back as the parameters [r], also when further
    fields follow it. *)
Definition reads_as (text : string) (r : list (string * string)) : Prop :=
  parse text = Some r /\
  forall X rX,
    parse X = Some rX -> parse (text ++ "&" ++ X) = Some (r ++ rX)%list.

(** The text made so far by the loop of [querystring.stringify]: empty,
    or fields that read back as [r]. *)
Definition made_so_far (fields : string) (r : list (string * string))
  : Prop :=
  fields = "" /\ r = [] \/ fields <> "" /\ reads_as fields r.

(** A key that an object keeps where it was added: it is not an array
    index, which JavaScript enumerates first, and not [__proto__],
    which an assignment takes for the prototype. *)
Definition plain_key (k : string) : bool :=
  negb (String.eqb k "__proto__") &&
  match k with
  | "" => true
  | String c _ => negb ((48 <=? N_of_ascii c) && (N_of_ascii c <=? 57))%N
  end.

(** The values that are not objects. *)
Definition primitive (v : value) : bool :=
  match v with
  | VUndefined | VNull | VBool _ | VNum _ | VStr _ => true
  | VArr _ | VObj _ | VError _ => false
  end.

(** The request of a call, for a token and the texts of the
    identifiers. *)
Definition request_of (token : value) (i : invocation) (ts : list string)
  : verb * options :=
  (documented_verb i,
   options_for (interpose (documented_path i) ts)
     [("access_token", token)] (payload i)).

(** The request of a call on the client [this], when its identifiers
    have texts; [token_of] gives the token of a credentials object. *)
Definition request_for (token_of : loc -> value) (c : ZenHub * invocation)
  : option (verb * options) :=
  match texts (identifiers (snd c)) with
  | Ok ts => Some (request_of (token_of (credentials (fst c))) (snd c) ts)
  | Throw _ => None
  end.

(** Calls made one after the other, each on its client; an exception
    ends the run. *)
Fixpoint invoke_each (tr : transport) (l : list (ZenHub * invocation))
  : M unit :=
  match l with
  | [] => ret tt
  | (this, i) :: l' =>
      invoke tr this i notify ;;
      invoke_each tr l'
  end.

(** Every client of the calls [l] has its credentials in the store. *)
Definition credentials_stored (token_of : loc -> value)
    (l : list (ZenHub * invocation)) (s : state) : Prop :=
  forall c, In c l ->
    heap s !! credentials (fst c) =
      Some [("access_token", token_of (credentials (fst c)))].

(** * The proofs

    ** Running the store operations *)

Lemma set_heap_id s : set_heap (heap s) s = s.
Proof. by destruct s. Qed.

Lemma fresh_unallocated (h : gmap loc object) : h !! fresh (dom h) = None.
Proof. apply not_elem_of_dom, is_fresh. Qed.

Lemma allocated_not_fresh (h : gmap loc object) (l : loc) :
  is_Some (h !! l) -> l <> fresh (dom h).
Proof.
  intros [o Ho] ->. rewrite fresh_unallocated in Ho. discriminate.
Qed.

Lemma copy_keys_run keys : forall target source s tgt,
  target <> source ->
  heap s !! target = Some tgt ->
  copy_keys target source keys s =
    (Ok tt,
     set_heap (<[target := copy_pure (default [] (heap s !! source)) keys tgt]>
                 (heap s)) s).
Proof.
  induction keys as [|key keys IH]; intros target source s tgt Hne Ht; simpl.
  - unfold ret. by rewrite insert_id, set_heap_id.
  - cbv [bind load store own_props ret]. rewrite Ht.
    erewrite IH; [|exact Hne|apply lookup_insert_eq].
    cbn [heap set_heap sent calls]. rewrite lookup_insert_ne by done.
    by rewrite insert_insert_eq.
Qed.

Lemma extend_run p c s P C :
  heap s !! p = Some P ->
  heap s !! c = Some C ->
  extend [p; c] s =
    (Ok (fresh (dom (heap s))),
     set_heap (<[fresh (dom (heap s)) := merged P C]> (heap s)) s).
Proof.
  intros Hp Hc.
  assert (Hfp : fresh (dom (heap s)) <> p)
    by (apply not_eq_sym, allocated_not_fresh; eauto).
  assert (Hfc : fresh (dom (heap s)) <> c)
    by (apply not_eq_sym, allocated_not_fresh; eauto).
  cbv [extend bind alloc copy_sources own_props ret].
  cbn [heap set_heap sent calls].
  rewrite (lookup_insert_ne _ _ p), Hp by done.
  erewrite copy_keys_run; [|exact Hfp|apply lookup_insert_eq].
  cbn [heap set_heap sent calls].
  rewrite insert_insert_eq, !(lookup_insert_ne _ _ p), Hp by done.
  rewrite !(lookup_insert_ne _ _ c), Hc by done.
  erewrite copy_keys_run; [|exact Hfc|apply lookup_insert_eq].
  cbn [heap set_heap sent calls].
  rewrite insert_insert_eq, !(lookup_insert_ne _ _ c), Hc by done.
  reflexivity.
Qed.

(** ** Running a helper and a method up to the completion of the request *)

Lemma append_cons (ch : ascii) (a b : string) :
  String ch a ++ b = String ch (a ++ b).
Proof. reflexivity. Qed.

Lemma append_assoc (a b c : string) : (a ++ b) ++ c = a ++ (b ++ c).
Proof.
  induction a as [|ch a IH]; [reflexivity|].
  by rewrite !append_cons, IH.
Qed.

Lemma append_nil_r (a : string) : a ++ "" = a.
Proof.
  induction a as [|ch a IH]; [reflexivity|].
  by rewrite append_cons, IH.
Qed.

Ltac run_helper Hp Hc :=
  cbv [bind]; erewrite extend_run by eassumption;
  cbv [stringify bind own_props ret set_heap]; cbn [heap];
  rewrite lookup_insert_eq; reflexivity.

Lemma _get_run tr this path p cb s P C :
  heap s !! p = Some P ->
  heap s !! credentials this = Some C ->
  _get tr this path p cb s = completes GET tr path (merged P C) None cb s.
Proof. intros Hp Hc. unfold _get. run_helper Hp Hc. Qed.

Lemma _post_run tr this path p b cb s P C :
  heap s !! p = Some P ->
  heap s !! credentials this = Some C ->
  _post tr this path p b cb s =
    completes POST tr path (merged P C) (Some b) cb s.
Proof. intros Hp Hc. unfold _post. run_helper Hp Hc. Qed.

Lemma _put_run tr this path p b cb s P C :
  heap s !! p = Some P ->
  heap s !! credentials this = Some C ->
  _put tr this path p b cb s =
    completes PUT tr path (merged P C) (Some b) cb s.
Proof. intros Hp Hc. unfold _put. run_helper Hp Hc. Qed.

Lemma invoke_run tr this i cb s ts C :
  texts (identifiers i) = Ok ts ->
  heap s !! credentials this = Some C ->
  invoke tr this i cb s =
    completes (documented_verb i) tr (interpose (documented_path i) ts)
      (merged [] C) (payload i) (deliver i cb) (with_parameters s).
Proof.
  intros Hts Hc.
  assert (Hc' : heap (with_parameters s) !! credentials this = Some C).
  { simpl. rewrite lookup_insert_ne; [done|].
    apply not_eq_sym, allocated_not_fresh. eauto. }
  assert (Hp : heap (with_parameters s) !! fresh (dom (heap s)) = Some []).
  { simpl. apply lookup_insert_eq. }
  destruct i; simpl in Hts;
    repeat match type of Hts with
           | context [ToString ?v] =>
               destruct (ToString v) eqn:?; try discriminate
           end;
    injection Hts as <-; simpl;
    cbv [getBoard getIssue getIssueEvents getEpics getEpicData
         addRemoveIssuesToEpic convertIssueToEpic setEstimateForIssue
         bind lift concat alloc];
    repeat match goal with
           | H : ToString _ = Ok _ |- _ => rewrite H; clear H
           end;
    fold (set_heap (<[fresh (dom (heap s)) := []]> (heap s)) s);
    fold (with_parameters s);
    first [erewrite _get_run by eassumption
          |erewrite _post_run by eassumption
          |erewrite _put_run by eassumption];
    rewrite ?append_assoc, ?append_nil_r; reflexivity.
Qed.

Lemma session_run tr token i s ts :
  texts (identifiers i) = Ok ts ->
  session tr token i s =
    completes (documented_verb i) tr (interpose (documented_path i) ts)
      [("access_token", token)] (payload i) (deliver i notify)
      (with_parameters (with_credentials token s)).
Proof.
  intros Hts. unfold session, new_ZenHub. cbv [bind alloc ret].
  fold (set_heap (<[fresh (dom (heap s)) := [("access_token", token)]]>
                     (heap s)) s).
  fold (with_credentials token s).
  rewrite (invoke_run _ _ _ _ _ ts [("access_token", token)]);
    [reflexivity | exact Hts | apply lookup_insert_eq].
Qed.

(** ** What a computation leaves unchanged *)

Create HintDb frame.

Lemma preserves_ret {A X} (f : state -> X) (a : A) : preserves f (ret a).
Proof. by intros s. Qed.

Lemma preserves_lift {A X} (f : state -> X) (r : result A) :
  preserves f (lift r).
Proof. by intros s. Qed.

Lemma preserves_bind {A B X} (f : state -> X) (m : M A) (k : A -> M B) :
  preserves f m -> (forall a, preserves f (k a)) -> preserves f (bind m k).
Proof.
  intros Hm Hk s. unfold bind. specialize (Hm s).
  destruct (m s) as [[a|e] s1]; simpl in *; [|done].
  by rewrite Hk.
Qed.

Lemma preserves_if {A X} (f : state -> X) (c : bool) (m1 m2 : M A) :
  preserves f m1 -> preserves f m2 -> preserves f (if c then m1 else m2).
Proof. by destruct c. Qed.

Lemma preserves_js_and {X} (f : state -> X) (a b : M bool) :
  preserves f a -> preserves f b -> preserves f (js_and a b).
Proof.
  intros Ha Hb. apply preserves_bind; [done|].
  intros []; [done | apply preserves_ret].
Qed.

Lemma notify_sent e r : preserves sent (notify e r).
Proof. by intros s. Qed.

Lemma notify_heap e r : preserves heap (notify e r).
Proof. by intros s. Qed.

#[local] Hint Resolve preserves_ret preserves_lift preserves_if
  preserves_js_and notify_sent notify_heap : frame.
#[local] Hint Extern 2 (preserves _ (bind _ _)) =>
  apply preserves_bind; [|intros ?] : frame.

Lemma get_complete_preserves {X} (f : state -> X) cb e r b :
  (forall e' b', preserves f (cb e' b')) ->
  preserves f (get_complete cb e r b).
Proof. intros Hcb. unfold get_complete. auto 10 with frame. Qed.

Lemma helper_complete_preserves {X} (f : state -> X) v cb e r b :
  (forall e' b', preserves f (cb e' b')) ->
  preserves f (helper_complete v cb e r b).
Proof.
  intros Hcb. destruct v; simpl;
    [by apply get_complete_preserves | apply Hcb | apply Hcb].
Qed.

Lemma deliver_preserves {X} (f : state -> X) i cb :
  (forall e b, preserves f (cb e b)) ->
  forall e b, preserves f (deliver i cb e b).
Proof. intros Hcb e b. destruct i; simpl; auto with frame. Qed.

(** ** The completion of a request *)

Lemma body_or_empty_prop (b : value) (k : string) :
  get_prop (body_or_empty b) k = Ok (field k (body_or_empty b)).
Proof.
  unfold body_or_empty. destruct (ToBoolean b) eqn:Hb; [|reflexivity].
  by destruct b.
Qed.

Lemma get_prop_Ok (b x : value) (k k' : string) :
  get_prop b k = Ok x -> get_prop b k' = Ok (field k' b).
Proof. by destruct b. Qed.

(** The transport reported an error: no property of the body is read. *)
Lemma get_complete_error cb e r b s :
  ToBoolean e = true ->
  get_complete cb e r b s = cb e (body_or_empty b) s.
Proof.
  intros He. unfold get_complete, js_and. cbv [bind ret]. by rewrite He.
Qed.

(** No error, and a status that is falsy or is ["OK"]. *)
Lemma get_complete_quiet cb e r b s :
  ToBoolean e = false ->
  (exists x, get_prop b "status" = Ok x) ->
  ToBoolean (field "status" b) = false \/ field "status" b = VStr "OK" ->
  get_complete cb e r b s = cb e (body_or_empty b) s.
Proof.
  intros He [x Hx] Hst. unfold get_complete, js_and. cbv [bind ret lift].
  rewrite He, (get_prop_Ok _ _ _ "status" Hx). simpl.
  destruct Hst as [-> | ->]; reflexivity.
Qed.

(** No error, and a truthy status other than ["OK"]. *)
Lemma get_complete_failed cb e r b s err :
  ToBoolean e = false ->
  (exists x, get_prop b "status" = Ok x) ->
  ToBoolean (field "status" b) = true ->
  strict_neq_str (field "status" b) "OK" = true ->
  new_Error (failure_text b) = Ok err ->
  get_complete cb e r b s = cb err (body_or_empty b) s.
Proof.
  intros He [x Hx] Ht Hne Herr.
  unfold get_complete, js_and. cbv [bind ret lift].
  rewrite He, (get_prop_Ok _ _ _ "status" Hx),
    (get_prop_Ok _ _ _ "description" Hx),
    (get_prop_Ok _ _ _ "error_message" Hx).
  simpl. rewrite Ht, Hne. simpl. unfold js_or.
  unfold failure_text in Herr.
  destruct (ToBoolean (field "description" b)); by rewrite Herr.
Qed.

(** No error and no body: reading [body.status] throws, and the callback
    is not reached. *)
Lemma get_complete_throws cb e r b s :
  ToBoolean e = false ->
  b = VUndefined \/ b = VNull ->
  get_complete cb e r b s = (Throw TypeError, s).
Proof.
  intros He Hb. unfold get_complete, js_and. cbv [bind ret lift].
  rewrite He. by destruct Hb as [-> | ->].
Qed.

Lemma deliver_notify i e b s :
  deliver i notify e (body_or_empty b) s =
    notify e (documented_result i b) s.
Proof.
  destruct i; simpl; try reflexivity.
  cbv [bind lift]. by rewrite body_or_empty_prop.
Qed.

Lemma get_prop_field (b x : value) (k : string) :
  get_prop b k = Ok x -> field k b = x.
Proof. destruct b; simpl; congruence. Qed.

Lemma new_Error_text (x : value) (t : string) :
  ToString x = Ok t -> exists m, new_Error x = Ok (VError m).
Proof.
  intros Ht. unfold new_Error.
  destruct x; try (rewrite Ht); eauto.
Qed.

Lemma truthy_string (st : string) : st <> "" -> ToBoolean (VStr st) = true.
Proof. intros H. simpl. by apply negb_true_iff, String.eqb_neq. Qed.

Lemma strict_neq_string (st k : string) :
  st <> k -> strict_neq_str (VStr st) k = true.
Proof. intros H. simpl. by apply negb_true_iff, String.eqb_neq. Qed.

Lemma session_replying e r b token i s ts :
  texts (identifiers i) = Ok ts ->
  session (replying e r b) token i s =
    helper_complete (documented_verb i) (deliver i notify) e r b
      (sent_state token i ts s).
Proof. intros Hts. by rewrite (session_run _ _ _ _ ts Hts). Qed.

(** A session whose helper hands [(e, body || {})] to the method. *)
Lemma session_delivers e e' r b token i s ts :
  texts (identifiers i) = Ok ts ->
  (forall cb s', helper_complete (documented_verb i) cb e r b s' =
                 cb e' (body_or_empty b) s') ->
  fst (session (replying e r b) token i s) = Ok tt /\
  calls (snd (session (replying e r b) token i s)) =
    (calls s ++ [(e', documented_result i b)])%list.
Proof.
  intros Hts Hc. rewrite (session_replying _ _ _ _ _ _ ts Hts), Hc.
  rewrite deliver_notify. by split.
Qed.

(** ** Error reporting of the GET methods *)

(** C1 (amended). For every GET endpoint call that the transport
    completes without an error: if the [status] of the body is a
    non-empty string other than ["OK"] (and the failure text,
    [description || error_message], has a text, as every string, number,
    boolean, [null] or absent field has), the callback is called once
    with a synthesized [Error]; if the body has no [status] or its
    [status] is ["OK"], the callback is called once with the error of the
    transport, none being synthesized. *)
Theorem get_status_synthesizes_error
    token i s error response body ts :
  documented_verb i = GET ->
  texts (identifiers i) = Ok ts ->
  ToBoolean error = false ->
  let out := session (replying error response body) token i s in
  (forall st d,
     get_prop body "status" = Ok (VStr st) -> st <> "" -> st <> "OK" ->
     ToString (failure_text body) = Ok d ->
     exists m,
       fst out = Ok tt /\
       calls (snd out) =
         (calls s ++ [(VError m, documented_result i body)])%list) /\
  (get_prop body "status" = Ok VUndefined \/
   get_prop body "status" = Ok (VStr "OK") ->
   fst out = Ok tt /\
   calls (snd out) = (calls s ++ [(error, documented_result i body)])%list).
Proof.
  intros Hv Hts He out. subst out. split.
  - intros st d Hst Hne Hok Hd.
    assert (Hf : field "status" body = VStr st) by by apply get_prop_field.
    destruct (new_Error_text _ _ Hd) as [m Hm]. exists m.
    apply (session_delivers _ _ _ _ _ _ _ ts Hts).
    intros cb s'. rewrite Hv. simpl.
    apply get_complete_failed; eauto.
    + rewrite Hf. by apply truthy_string.
    + rewrite Hf. by apply strict_neq_string.
  - intros Hst.
    apply (session_delivers _ _ _ _ _ _ _ ts Hts).
    intros cb s'. rewrite Hv. simpl.
    apply get_complete_quiet; [done| |].
    + destruct Hst; eauto.
    + destruct Hst as [H|H]; apply get_prop_field in H; rewrite H; auto.
Qed.

(** C1, as stated, fails for the empty string: [getIssue(42, 7)]
    completed without error and with the body [{status: ""}] calls back
    with a [null] error, although [""] is a string other than ["OK"]. *)
Lemma get_empty_status_no_error :
  let body := VObj [("status", VStr "")] in
  let out :=
    session (replying VNull VUndefined body) (VStr "t")
      (GetIssue (VNum 42) (VNum 7)) initial in
  get_prop body "status" = Ok (VStr "") /\
  "" <> "OK" /\
  fst out = Ok tt /\
  calls (snd out) = [(VNull, body)].
Proof. vm_compute. repeat split. discriminate. Qed.

(** A failure text without a text: the [description] is an object with
    an own property [toString]. [new Error] throws, and the callback is
    not called. *)
Lemma unconvertible_description_throws :
  let body :=
    VObj [("status", VStr "Error");
          ("description", VObj [("toString", VNum 1)])] in
  let out :=
    session (replying VNull VUndefined body) (VStr "t")
      (GetIssue (VNum 42) (VNum 7)) initial in
  fst out = Throw TypeError /\ calls (snd out) = [].
Proof. vm_compute. by split. Qed.

(** C3 (amended). When a GET call synthesizes an error, its message is
    the [description] of the body if that is a non-empty string; if the
    [description] is absent or is the empty string, the message is the
    [error_message] of the body. *)
Theorem synthesized_message
    token i s error response body ts st :
  documented_verb i = GET ->
  texts (identifiers i) = Ok ts ->
  ToBoolean error = false ->
  get_prop body "status" = Ok (VStr st) -> st <> "" -> st <> "OK" ->
  let out := session (replying error response body) token i s in
  (forall d,
     field "description" body = VStr d -> d <> "" ->
     calls (snd out) =
       (calls s ++ [(VError d, documented_result i body)])%list) /\
  (forall em,
     field "description" body = VUndefined \/
     field "description" body = VStr "" ->
     field "error_message" body = VStr em ->
     calls (snd out) =
       (calls s ++ [(VError em, documented_result i body)])%list).
Proof.
  intros Hv Hts He Hst Hne Hok out. subst out.
  assert (Hf : field "status" body = VStr st) by by apply get_prop_field.
  assert (Hrun : forall m,
    new_Error (failure_text body) = Ok (VError m) ->
    calls (snd (session (replying error response body) token i s)) =
      (calls s ++ [(VError m, documented_result i body)])%list).
  { intros m Hm.
    apply (session_delivers _ _ _ _ _ _ _ ts Hts).
    intros cb s'. rewrite Hv. simpl.
    apply get_complete_failed; eauto.
    - rewrite Hf. by apply truthy_string.
    - rewrite Hf. by apply strict_neq_string. }
  split.
  - intros d Hd Hdne. apply Hrun. unfold failure_text.
    by rewrite Hd, (truthy_string d Hdne).
  - intros em Hd Hem. apply Hrun. unfold failure_text.
    destruct Hd as [-> | ->]; simpl; by rewrite Hem.
Qed.

(** C3, as stated, fails for an empty [description]: with the body
    [{status: "Error", description: "", error_message: "boom"}] the
    [description] is present, and the message of the synthesized error
    is ["boom"], not the [description]. *)
Lemma empty_description_falls_back :
  let body :=
    VObj [("status", VStr "Error"); ("description", VStr "");
          ("error_message", VStr "boom")] in
  let out :=
    session (replying VNull VUndefined body) (VStr "t")
      (GetEpicData (VNum 123) (VNum 55)) initial in
  obj_get "description" [("status", VStr "Error"); ("description", VStr "");
                         ("error_message", VStr "boom")] = Some (VStr "") /\
  calls (snd out) = [(VError "boom", body)] /\
  "boom" <> "".
Proof. vm_compute. repeat split. discriminate. Qed.

(** ** Error reporting of the POST and PUT methods *)

(** C2. A POST or PUT call hands the error of the transport to the
    callback as it is, whatever the [status] of the body: no error is
    synthesized. So [setEstimateForIssue(123, 9, {estimate: 3})]
    completed with [(null, {status: "Error"})] calls back with
    [(null, {status: "Error"})]. *)
Theorem post_put_forward_status :
  (forall token i s error response body ts,
     documented_verb i = POST \/ documented_verb i = PUT ->
     texts (identifiers i) = Ok ts ->
     let out := session (replying error response body) token i s in
     fst out = Ok tt /\
     calls (snd out) = (calls s ++ [(error, body_or_empty body)])%list) /\
  (forall token response s,
     let out :=
       session (replying VNull response (VObj [("status", VStr "Error")]))
         token
         (SetEstimateForIssue (VNum 123) (VNum 9)
            (VObj [("estimate", VNum 3)])) s in
     fst out = Ok tt /\
     calls (snd out) =
       (calls s ++ [(VNull, VObj [("status", VStr "Error")])])%list).
Proof.
  assert (H : forall token i s error response body ts,
     documented_verb i = POST \/ documented_verb i = PUT ->
     texts (identifiers i) = Ok ts ->
     fst (session (replying error response body) token i s) = Ok tt /\
     calls (snd (session (replying error response body) token i s)) =
       (calls s ++ [(error, body_or_empty body)])%list).
  { intros token i s error response body ts Hv Hts.
    replace (body_or_empty body) with (documented_result i body)
      by (destruct i, Hv; simpl in *; congruence).
    apply (session_delivers _ _ _ _ _ _ _ ts Hts).
    intros cb s'. by destruct Hv as [-> | ->]. }
  split; [exact H|].
  intros token response s.
  apply (H token _ s VNull response (VObj [("status", VStr "Error")])
           ["123"; "9"]); [by right | reflexivity].
Qed.

(** ** Transport errors *)

(** C4 (amended). For every endpoint method, if the transport reports an
    error, the callback is called once with that error as it is; the
    result is [body || {}], the response body or an empty object when
    the body is absent (or otherwise falsy), and for [getBoard] the
    [pipelines] of that value. *)
Theorem transport_error_forwarded
    token i s error response body ts :
  texts (identifiers i) = Ok ts ->
  ToBoolean error = true ->
  let out := session (replying error response body) token i s in
  fst out = Ok tt /\
  calls (snd out) = (calls s ++ [(error, documented_result i body)])%list /\
  documented_result i body =
    match i with
    | GetBoard _ => field "pipelines" (if ToBoolean body then body else VObj [])
    | _ => if ToBoolean body then body else VObj []
    end.
Proof.
  intros Hts He out. subst out.
  assert (Hc : forall cb s',
    helper_complete (documented_verb i) cb error response body s' =
      cb error (body_or_empty body) s').
  { intros cb s'. destruct (documented_verb i); simpl; try reflexivity.
    by apply get_complete_error. }
  destruct (session_delivers _ _ _ _ token _ s ts Hts Hc) as [H1 H2].
  split; [exact H1 | split; [exact H2 | by destruct i]].
Qed.

(** C4, as stated, fails for [getBoard]: when the transport fails and
    there is no body, the result handed to the callback is [undefined],
    not an empty object. *)
Lemma getBoard_error_result_undefined :
  let out :=
    session (replying (VError "ETIMEDOUT") VUndefined VUndefined) (VStr "t")
      (GetBoard (VNum 123)) initial in
  calls (snd out) = [(VError "ETIMEDOUT", VUndefined)] /\
  VUndefined <> VObj [].
Proof. vm_compute. split; [reflexivity | discriminate]. Qed.

(** C5, at the input where the code departs from it: a request
    completed without error and without a body. The completion of [_get]
    throws a TypeError when it reads [body.status], before it reaches
    [body || {}], and its callback is never called; the completions of
    [_post] and [_put] call back once with [(null, {})]. *)
Theorem get_absent_body_throws :
  let run v :=
    helper_session (replying VNull VUndefined VUndefined) (VStr "t") v
      "repositories/42/issues/7" (VObj []) initial in
  fst (run GET) = Throw TypeError /\ calls (snd (run GET)) = [] /\
  fst (run POST) = Ok tt /\ calls (snd (run POST)) = [(VNull, VObj [])] /\
  fst (run PUT) = Ok tt /\ calls (snd (run PUT)) = [(VNull, VObj [])].
Proof. vm_compute. repeat split. Qed.

(** The same holds for every GET method and for a [null] body. *)
Lemma every_get_throws_without_body token i s error response body ts :
  documented_verb i = GET ->
  texts (identifiers i) = Ok ts ->
  ToBoolean error = false ->
  body = VUndefined \/ body = VNull ->
  fst (session (replying error response body) token i s) = Throw TypeError /\
  calls (snd (session (replying error response body) token i s)) = calls s.
Proof.
  intros Hv Hts He Hb.
  rewrite (session_replying _ _ _ _ _ _ ts Hts), Hv. simpl helper_complete.
  by rewrite get_complete_throws.
Qed.

(** ** The result of [getBoard] *)

(** C6. [getBoard] completed without error and with a body whose
    [status] is ["OK"] and whose [pipelines] is [P] calls back once with
    [(null, P)]. *)
Theorem getBoard_passes_pipelines
    token s repoId response props P t :
  ToString repoId = Ok t ->
  obj_get "status" props = Some (VStr "OK") ->
  obj_get "pipelines" props = Some P ->
  let out :=
    session (replying VNull response (VObj props)) token (GetBoard repoId) s in
  fst out = Ok tt /\ calls (snd out) = (calls s ++ [(VNull, P)])%list.
Proof.
  intros Ht Hst HP out. subst out.
  replace P with (documented_result (GetBoard repoId) (VObj props))
    by (simpl; by rewrite HP).
  apply (session_delivers _ _ _ _ _ _ _ [t]); [simpl; by rewrite Ht|].
  intros cb s'. simpl.
  apply get_complete_quiet; [done|by eexists|].
  right. simpl. by rewrite Hst.
Qed.

Lemma obj_get_size k props x :
  obj_get k props = Some x -> (value_size x < value_size (VObj props))%nat.
Proof.
  induction props as [|[k' v] props IH]; simpl; [discriminate|].
  destruct (String.eqb k' k).
  - intros [= ->]. lia.
  - intros H. specialize (IH H). simpl in IH. lia.
Qed.

Lemma field_is_not_whole k b : field k (body_or_empty b) <> body_or_empty b.
Proof.
  unfold body_or_empty. destruct (ToBoolean b) eqn:Hb; [|discriminate].
  destruct b; simpl; try discriminate.
  destruct (obj_get k props) as [x|] eqn:Hx; [|discriminate].
  intros ->. apply obj_get_size in Hx. lia.
Qed.

(** A GET completes by throwing when [body.status] cannot be read or the
    failure text has no text, and otherwise by calling back once with
    [body || {}]. *)
Lemma get_complete_cases cb e r b s :
  get_complete cb e r b s = (Throw TypeError, s) \/
  exists e', get_complete cb e r b s = cb e' (body_or_empty b) s.
Proof.
  unfold get_complete, js_and. cbv [bind ret lift].
  destruct (ToBoolean e); [right; eauto|].
  destruct (get_prop b "status") as [st|[]] eqn:Hst; [|by left].
  rewrite (get_prop_Ok _ _ _ "description" Hst),
    (get_prop_Ok _ _ _ "error_message" Hst).
  simpl. destruct (ToBoolean st); simpl; [|right; eauto].
  destruct (strict_neq_str st "OK"); [|right; eauto].
  unfold js_or. destruct (ToBoolean (field "description" b)).
  - destruct (new_Error (field "description" b)) as [err|[]];
      [right; eauto | by left].
  - destruct (new_Error (field "error_message" b)) as [err|[]];
      [right; eauto | by left].
Qed.

Lemma strict_neq_value (v : value) (k : string) :
  v <> VStr k -> strict_neq_str v k = true.
Proof.
  destruct v; simpl; try done.
  intros Hne. apply negb_true_iff, String.eqb_neq. congruence.
Qed.

(** The message [new Error] gives to its argument [x] with the text
    [d]. *)
Lemma new_Error_message x d :
  ToString x = Ok d ->
  new_Error x = Ok (VError (match x with VUndefined => "" | _ => d end)).
Proof. intros Hd. unfold new_Error. destruct x; by rewrite ?Hd. Qed.

(** No error, a truthy status other than ["OK"], and a failure text
    without a text: [new Error] throws. *)
Lemma get_complete_unconvertible cb e r b s x :
  ToBoolean e = false ->
  (exists y, get_prop b "status" = Ok y) ->
  ToBoolean (field "status" b) = true ->
  strict_neq_str (field "status" b) "OK" = true ->
  ToString (failure_text b) = Throw x ->
  get_complete cb e r b s = (Throw x, s).
Proof.
  intros He [y Hy] Ht Hne Hx.
  assert (Herr : new_Error (failure_text b) = Throw x).
  { unfold new_Error. destruct (failure_text b); try discriminate;
      by rewrite Hx. }
  unfold get_complete, js_and. cbv [bind ret lift].
  rewrite He, (get_prop_Ok _ _ _ "status" Hy),
    (get_prop_Ok _ _ _ "description" Hy),
    (get_prop_Ok _ _ _ "error_message" Hy).
  simpl. rewrite Ht, Hne. simpl. unfold js_or.
  unfold failure_text in Herr.
  destruct (ToBoolean (field "description" b)); by rewrite Herr.
Qed.

(** C10 (amended). [getBoard] extracts without condition. Whenever
    its helper reaches the callback (after a transport error; and
    without one, when the [status] of the body is falsy or ["OK"], or is
    another truthy value and an error is synthesized), the callback of
    the caller is called once, with the error the helper delivers and
    with the [pipelines] of the delivered [body || {}] as the result; no
    run calls it otherwise. That result is [undefined] when there are no
    [pipelines], and it is never the delivered value itself, the full
    body or the empty object standing for an absent one. *)
Theorem getBoard_extracts_unconditionally
    token s repoId error response body t :
  ToString repoId = Ok t ->
  let out :=
    session (replying error response body) token (GetBoard repoId) s in
  let r := field "pipelines" (body_or_empty body) in
  (ToBoolean error = true ->
   fst out = Ok tt /\ calls (snd out) = (calls s ++ [(error, r)])%list) /\
  (forall status,
     ToBoolean error = false -> get_prop body "status" = Ok status ->
     (ToBoolean status = false \/ status = VStr "OK" ->
      fst out = Ok tt /\
      calls (snd out) = (calls s ++ [(error, r)])%list) /\
     (forall d,
        ToBoolean status = true -> status <> VStr "OK" ->
        ToString (failure_text body) = Ok d ->
        fst out = Ok tt /\
        calls (snd out) =
          (calls s ++
           [(VError (match failure_text body with
                     | VUndefined => ""
                     | _ => d
                     end), r)])%list)) /\
  (fst out = Throw TypeError /\ calls (snd out) = calls s \/
   exists e, fst out = Ok tt /\ calls (snd out) = (calls s ++ [(e, r)])%list) /\
  r <> body_or_empty body /\
  (forall props, body = VObj props -> obj_get "pipelines" props = None ->
                 r = VUndefined) /\
  (ToBoolean body = false -> r = VUndefined).
Proof.
  intros Ht out r. subst out r.
  assert (Hts : texts (identifiers (GetBoard repoId)) = Ok [t])
    by (simpl; by rewrite Ht).
  split; [|split; [|split; [|split; [|split]]]].
  - intros He.
    apply (session_delivers _ _ _ _ _ (GetBoard repoId) _ [t] Hts).
    intros cb s'. by apply get_complete_error.
  - intros status He Hst.
    assert (Hf : field "status" body = status) by by apply get_prop_field.
    split.
    + intros Hq.
      apply (session_delivers _ _ _ _ _ (GetBoard repoId) _ [t] Hts).
      intros cb s'. simpl.
      apply get_complete_quiet; [done | eauto | by rewrite Hf].
    + intros d Htrue Hne Hd.
      apply (session_delivers _ _ _ _ _ (GetBoard repoId) _ [t] Hts).
      intros cb s'. simpl.
      apply get_complete_failed; eauto.
      * by rewrite Hf.
      * rewrite Hf. by apply strict_neq_value.
      * by apply new_Error_message.
  - rewrite (session_replying _ _ _ _ _ _ [t] Hts).
    change (helper_complete (documented_verb (GetBoard repoId)))
      with get_complete.
    destruct (get_complete_cases (deliver (GetBoard repoId) notify)
                error response body
                (sent_state token (GetBoard repoId) [t] s)) as [H | [e H]];
      rewrite H.
    + by left.
    + right. exists e. rewrite deliver_notify. by split.
  - apply field_is_not_whole.
  - intros props -> Hp. simpl. by rewrite Hp.
  - intros Hb. unfold body_or_empty. by rewrite Hb.
Qed.

(** C10, as stated, fails when the [pipelines] of the body are an empty
    object: [getBoard(123)] completed with the body [{pipelines: {}}]
    hands the empty object [{}] to the callback, after a transport error
    as without one. *)
Lemma getBoard_result_can_be_empty_object :
  let body := VObj [("pipelines", VObj [])] in
  let failed :=
    session (replying (VError "E") VUndefined body) (VStr "t")
      (GetBoard (VNum 123)) initial in
  let succeeded :=
    session (replying VNull VUndefined body) (VStr "t")
      (GetBoard (VNum 123)) initial in
  calls (snd failed) = [(VError "E", VObj [])] /\
  calls (snd succeeded) = [(VNull, VObj [])].
Proof. vm_compute. by split. Qed.

(** ** The request *)

(** The one request of a session. *)
Lemma session_sends tr token i s ts :
  texts (identifiers i) = Ok ts ->
  sent (snd (session tr token i s)) =
    (sent s ++
     [(documented_verb i,
       options_for (interpose (documented_path i) ts)
         [("access_token", token)] (payload i))])%list.
Proof.
  intros Hts.
  rewrite (session_run _ _ _ _ ts Hts). unfold completes.
  rewrite helper_complete_preserves; [reflexivity|].
  apply deliver_preserves. auto with frame.
Qed.

(** C7. Every endpoint method sends one request, with the verb of the
    documented table and the URL
    [base + '/' + path + '?' + encodedQuery], where [path] is the
    documented template with the texts of the identifiers written into
    its holes; so [getIssue(42, 7)] requests
    [repositories/42/issues/7]. *)
Theorem url_by_interposition :
  (forall tr token i s ts,
     texts (identifiers i) = Ok ts ->
     sent (snd (session tr token i s)) =
       (sent s ++
        [(documented_verb i,
          {| url := API_URL ++ "/" ++ interpose (documented_path i) ts
                      ++ "?" ++ stringify_fields [("access_token", token)];
             strictSSL := true; json := true; body := payload i |})])%list) /\
  (forall tr token s,
     sent (snd (session tr token (GetIssue (VNum 42) (VNum 7)) s)) =
       (sent s ++
        [(GET,
          {| url := "https://api.zenhub.io/p1/repositories/42/issues/7?"
                      ++ stringify_fields [("access_token", token)];
             strictSSL := true; json := true; body := None |})])%list).
Proof.
  split.
  - exact session_sends.
  - intros tr token s.
    by rewrite (session_sends tr token (GetIssue (VNum 42) (VNum 7)) s
                  ["42"; "7"]).
Qed.

(** ** The store *)

Lemma completes_keeps v tr path m b cb s :
  (forall e r, preserves heap (cb e r)) ->
  objects_kept s (snd (completes v tr path m b cb s)).
Proof.
  intros Hcb l o Hl. unfold completes.
  rewrite helper_complete_preserves by done.
  simpl. rewrite lookup_insert_ne; [done|].
  apply not_eq_sym, allocated_not_fresh. eauto.
Qed.

(** C9. The merge of the credentials into the query parameters writes
    to a new object only: after a call of any of the three helpers (with
    a callback that leaves the store alone), the parameter object of the
    caller and the credentials object of the client have the properties
    they had, as has every other object. *)
Theorem merge_keeps_inputs tr this path p b cb s P C :
  heap s !! p = Some P ->
  heap s !! credentials this = Some C ->
  (forall e r, preserves heap (cb e r)) ->
  forall s',
    s' = snd (_get tr this path p cb s) \/
    s' = snd (_post tr this path p b cb s) \/
    s' = snd (_put tr this path p b cb s) ->
    heap s' !! p = Some P /\
    heap s' !! credentials this = Some C /\
    objects_kept s s'.
Proof.
  intros Hp Hc Hcb s' Hs'.
  assert (Hk : objects_kept s s').
  { destruct Hs' as [-> | [-> | ->]].
    - rewrite (_get_run _ _ _ _ _ _ P C Hp Hc). by apply completes_keeps.
    - rewrite (_post_run _ _ _ _ _ _ _ P C Hp Hc). by apply completes_keeps.
    - rewrite (_put_run _ _ _ _ _ _ _ P C Hp Hc). by apply completes_keeps. }
  split; [by apply Hk | split; [by apply Hk | exact Hk]].
Qed.

(** ** The credential in the query string *)

Lemma occurs_append c a b : occurs c (a ++ b) = occurs c a || occurs c b.
Proof.
  induction a as [|ch a IH]; [reflexivity|].
  rewrite append_cons. simpl. by rewrite IH, orb_assoc.
Qed.

Lemma before_free c s : occurs c s = false -> before c s = s.
Proof.
  induction s as [|ch s IH]; simpl; [done|].
  intros [-> Hs]%orb_false_iff. by rewrite IH.
Qed.

Lemma after_append c a b :
  occurs c a = false -> after c (a ++ String c b) = b.
Proof.
  induction a as [|ch a IH]; simpl.
  - by rewrite Ascii.eqb_refl.
  - intros [Hc Ha]%orb_false_iff. by rewrite Hc, IH.
Qed.

Lemma split_on_free c s : occurs c s = false -> split_on c s = [s].
Proof.
  induction s as [|ch s IH]; simpl; [done|].
  intros [-> Hs]%orb_false_iff. by rewrite IH.
Qed.

Lemma encodeChar_free c ch : delimiter c -> occurs c (encodeChar ch) = false.
Proof.
  intros [-> | [-> | [-> | [-> | ->]]]];
    destruct ch as [[] [] [] [] [] [] [] []]; reflexivity.
Qed.

Lemma qsEscape_free c t : delimiter c -> occurs c (qsEscape t) = false.
Proof.
  intros Hc. induction t as [|ch t IH]; simpl; [done|].
  by rewrite occurs_append, encodeChar_free, IH.
Qed.

Lemma unescape_encodeChar ch rest :
  unescape (encodeChar ch ++ rest) = String ch <$> unescape rest.
Proof. destruct ch as [[] [] [] [] [] [] [] []]; reflexivity. Qed.

(** Decoding undoes [querystring.escape]. *)
Lemma unescape_qsEscape t : unescape (qsEscape t) = Some t.
Proof.
  induction t as [|ch t IH]; [reflexivity|].
  simpl qsEscape. by rewrite unescape_encodeChar, IH.
Qed.

Lemma uint_free c d :
  c = "?"%char \/ c = "#"%char ->
  occurs c (NilEmpty.string_of_uint d) = false.
Proof. intros [-> | ->]; induction d; simpl; auto. Qed.

(** The text of a number has no [?] and no [#]. *)
Lemma Number_toString_free c n :
  c = "?"%char \/ c = "#"%char -> occurs c (Number_toString n) = false.
Proof.
  intros Hc. unfold Number_toString, NilZero.string_of_int, Z.to_int.
  destruct n as [|p|p]; [by destruct Hc as [-> | ->]| |].
  - unfold NilZero.string_of_uint.
    destruct (Pos.to_uint p) eqn:Hp;
      rewrite <- ?Hp; try apply uint_free; try done.
    by destruct Hc as [-> | ->].
  - unfold NilZero.string_of_uint.
    destruct (Pos.to_uint p) eqn:Hp; simpl;
      rewrite <- ?Hp, ?uint_free by done;
      by destruct Hc as [-> | ->].
Qed.

Lemma stringify_token t :
  stringify_fields [("access_token", VStr t)] = "access_token=" ++ qsEscape t.
Proof.
  reflexivity.
Qed.

Lemma parse_token t :
  parse ("access_token=" ++ qsEscape t) = Some [("access_token", t)].
Proof.
  unfold parse. rewrite split_on_free.
  - cbn [parse_pieces].
    change (String.eqb ("access_token=" ++ qsEscape t) "") with false.
    change (before "=" ("access_token=" ++ qsEscape t)) with "access_token".
    change (after "=" ("access_token=" ++ qsEscape t)) with (qsEscape t).
    by rewrite unescape_qsEscape.
  - rewrite occurs_append, qsEscape_free; [reflexivity|].
    by left.
Qed.

Lemma path_free c i ts :
  c = "?"%char \/ c = "#"%char ->
  texts (identifiers i) = Ok ts ->
  Forall (fun t => occurs c t = false) ts ->
  occurs c (interpose (documented_path i) ts) = false.
Proof.
  intros Hc Hts Hfree.
  destruct i; simpl in Hts;
    repeat match type of Hts with
           | context [ToString ?v] => destruct (ToString v); try discriminate
           end;
    injection Hts as <-;
    repeat match goal with
           | H : Forall _ (_ :: _) |- _ => apply Forall_cons in H as [? H]
           end;
    cbn [interpose documented_path nth];
    rewrite ?occurs_append;
    repeat match goal with H : occurs _ _ = false |- _ => rewrite H end;
    by destruct Hc as [-> | ->].
Qed.

Lemma plain_free t :
  plain t = true -> occurs "?" t = false /\ occurs "#" t = false.
Proof.
  unfold plain. intros [H1 H2]%andb_true_iff.
  by apply negb_true_iff in H1, H2.
Qed.

Lemma url_query_of path q :
  plain path = true ->
  occurs "#" q = false ->
  url_query (API_URL ++ "/" ++ path ++ "?" ++ q) = q.
Proof.
  intros [Hq Hh]%plain_free Hhq. unfold url_query.
  rewrite before_free.
  - replace (API_URL ++ "/" ++ path ++ "?" ++ q)
      with ((API_URL ++ "/" ++ path) ++ String "?" q)
      by (by rewrite !append_assoc).
    apply after_append. by rewrite !occurs_append, Hq.
  - by rewrite !occurs_append, Hh, Hhq.
Qed.

(** C8 (amended). Every endpoint method of a client constructed with
    the token [t], called with identifiers whose texts have no [?] and no
    [#] (as the text of every number), sends one request, and the query
    of its URL is [access_token=] followed by the escaped [t]: it has the
    one parameter [access_token], with the value [t]. *)
Theorem token_in_every_query tr t i s ts :
  texts (identifiers i) = Ok ts ->
  forallb plain ts = true ->
  exists o,
    sent (snd (session tr (VStr t) i s)) =
      (sent s ++ [(documented_verb i, o)])%list /\
    url o = API_URL ++ "/" ++ interpose (documented_path i) ts
              ++ "?access_token=" ++ qsEscape t /\
    url_query (url o) = "access_token=" ++ qsEscape t /\
    parse (url_query (url o)) = Some [("access_token", t)].
Proof.
  intros Hts Hplain.
  eexists.
  split; [exact (session_sends tr (VStr t) i s ts Hts)|].
  unfold options_for. cbn [url]. rewrite stringify_token.
  split; [reflexivity|].
  assert (Hfree : Forall (fun x => occurs "?" x = false /\
                                   occurs "#" x = false) ts).
  { apply Forall_forall. intros x Hx%list_elem_of_In.
    apply plain_free. by apply (proj1 (forallb_forall plain ts) Hplain). }
  assert (Hq : url_query
                 (API_URL ++ "/" ++ interpose (documented_path i) ts
                    ++ "?" ++ "access_token=" ++ qsEscape t) =
               "access_token=" ++ qsEscape t).
  { apply url_query_of.
    - unfold plain. apply andb_true_iff. split; apply negb_true_iff.
      + apply (path_free "?" i ts); [by left | exact Hts|].
        eapply Forall_impl; [exact Hfree | by intros x [? ?]].
      + apply (path_free "#" i ts); [by right | exact Hts|].
        eapply Forall_impl; [exact Hfree | by intros x [? ?]].
    - rewrite occurs_append, qsEscape_free; [reflexivity|].
      by right; right; left. }
  split; [exact Hq|]. rewrite Hq. apply parse_token.
Qed.

(** C8, as stated, fails for an identifier with a [#]: the request of
    [getBoard("1#")] has the URL [.../repositories/1#/board?access_token=t],
    whose query is empty, the [#] beginning the fragment: the request has
    no parameter [access_token]. With ["1?x=2"] the query has the one
    parameter [x]. *)
Lemma hash_in_identifier_hides_token :
  let tr := replying VNull VUndefined (VObj []) in
  let urls i := map (fun r => url (snd r))
                    (sent (snd (session tr (VStr "t") i initial))) in
  urls (GetBoard (VStr "1#")) =
    ["https://api.zenhub.io/p1/repositories/1#/board?access_token=t"] /\
  url_query "https://api.zenhub.io/p1/repositories/1#/board?access_token=t"
    = "" /\
  parse "" = Some [] /\
  urls (GetBoard (VStr "1?x=2")) =
    ["https://api.zenhub.io/p1/repositories/1?x=2/board?access_token=t"] /\
  parse (url_query
           "https://api.zenhub.io/p1/repositories/1?x=2/board?access_token=t")
    = Some [("x", "2/board?access_token=t")].
Proof. vm_compute. repeat split. Qed.

(** The texts of numbers are plain. *)
Lemma numbers_plain (l : list Z) :
  forallb plain (map Number_toString l) = true.
Proof.
  induction l as [|n l IH]; [reflexivity|].
  simpl. rewrite IH. unfold plain.
  by rewrite !Number_toString_free by auto.
Qed.

(** ** The theorems at concrete calls *)

(** [getEpicData(123, 55)] answered with
    [{status: "Error", description: "not found"}]. *)
Lemma get_status_synthesizes_error_witness :
  let i := GetEpicData (VNum 123) (VNum 55) in
  let body :=
    VObj [("status", VStr "Error"); ("description", VStr "not found")] in
  let out := session (replying VNull VUndefined body) (VStr "t") i initial in
  documented_verb i = GET /\
  texts (identifiers i) = Ok ["123"; "55"] /\
  ToBoolean VNull = false /\
  exists m,
    fst out = Ok tt /\
    calls (snd out) = [(VError m, documented_result i body)].
Proof.
  intros i body out.
  split; [reflexivity|]. split; [reflexivity|]. split; [reflexivity|].
  apply (proj1 (get_status_synthesizes_error (VStr "t") i initial VNull
                  VUndefined body ["123"; "55"] eq_refl eq_refl eq_refl)
           "Error" "not found");
    [reflexivity | discriminate | discriminate | reflexivity].
Defined.

Lemma synthesized_message_witness :
  let i := GetEpicData (VNum 123) (VNum 55) in
  let body :=
    VObj [("status", VStr "Error"); ("description", VStr "not found")] in
  let out := session (replying VNull VUndefined body) (VStr "t") i initial in
  documented_verb i = GET /\
  texts (identifiers i) = Ok ["123"; "55"] /\
  ToBoolean VNull = false /\
  get_prop body "status" = Ok (VStr "Error") /\
  "Error" <> "" /\ "Error" <> "OK" /\
  calls (snd out) = [(VError "not found", body)].
Proof.
  intros i body out.
  repeat (split; [first [reflexivity | discriminate]|]).
  apply (proj1 (synthesized_message (VStr "t") i initial VNull VUndefined
                  body ["123"; "55"] "Error" eq_refl eq_refl eq_refl eq_refl
                  ltac:(discriminate) ltac:(discriminate))
           "not found");
    [reflexivity | discriminate].
Defined.

Lemma post_put_forward_status_witness :
  let i := AddRemoveIssuesToEpic (VNum 1) (VNum 2) (VObj []) in
  let body := VObj [("status", VStr "Error")] in
  let out := session (replying VNull VUndefined body) (VStr "t") i initial in
  (documented_verb i = POST \/ documented_verb i = PUT) /\
  texts (identifiers i) = Ok ["1"; "2"] /\
  fst out = Ok tt /\ calls (snd out) = [(VNull, body)].
Proof.
  intros i body out.
  split; [by left|]. split; [reflexivity|].
  apply (proj1 post_put_forward_status (VStr "t") i initial VNull VUndefined
           body ["1"; "2"]); [by left | reflexivity].
Defined.

Lemma transport_error_forwarded_witness :
  let i := GetIssue (VNum 42) (VNum 7) in
  let out :=
    session (replying (VError "ETIMEDOUT") VUndefined VUndefined) (VStr "t")
      i initial in
  texts (identifiers i) = Ok ["42"; "7"] /\
  ToBoolean (VError "ETIMEDOUT") = true /\
  fst out = Ok tt /\
  calls (snd out) = [(VError "ETIMEDOUT", VObj [])].
Proof.
  intros i out.
  split; [reflexivity|]. split; [reflexivity|].
  destruct (transport_error_forwarded (VStr "t") i initial
              (VError "ETIMEDOUT") VUndefined VUndefined ["42"; "7"]
              eq_refl eq_refl) as [H1 [H2 _]].
  split; [exact H1 | exact H2].
Defined.

(** [getBoard(123)] answered with
    [{status: "OK", pipelines: [{id: "p1"}]}]. *)
Lemma getBoard_passes_pipelines_witness :
  let props :=
    [("status", VStr "OK"); ("pipelines", VArr [VObj [("id", VStr "p1")]])] in
  let out :=
    session (replying VNull VUndefined (VObj props)) (VStr "t")
      (GetBoard (VNum 123)) initial in
  ToString (VNum 123) = Ok "123" /\
  obj_get "status" props = Some (VStr "OK") /\
  obj_get "pipelines" props = Some (VArr [VObj [("id", VStr "p1")]]) /\
  fst out = Ok tt /\
  calls (snd out) = [(VNull, VArr [VObj [("id", VStr "p1")]])].
Proof.
  intros props out.
  split; [reflexivity|]. split; [reflexivity|]. split; [reflexivity|].
  apply (getBoard_passes_pipelines (VStr "t") initial (VNum 123) VUndefined
           props (VArr [VObj [("id", VStr "p1")]]) "123");
    reflexivity.
Defined.

(** [getBoard(123)] answered with [{status: "OK", pipelines: []}], and
    with [{status: "Error", description: "no"}]. *)
Lemma getBoard_extracts_unconditionally_witness :
  let ok := VObj [("status", VStr "OK"); ("pipelines", VArr [])] in
  let bad := VObj [("status", VStr "Error"); ("description", VStr "no")] in
  let run body :=
    session (replying VNull VUndefined body) (VStr "t")
      (GetBoard (VNum 123)) initial in
  ToString (VNum 123) = Ok "123" /\
  (fst (run ok) = Ok tt /\ calls (snd (run ok)) = [(VNull, VArr [])]) /\
  (fst (run bad) = Ok tt /\
   calls (snd (run bad)) = [(VError "no", VUndefined)]).
Proof.
  intros ok bad run.
  split; [reflexivity|]. split.
  - destruct (getBoard_extracts_unconditionally (VStr "t") initial
                (VNum 123) VNull VUndefined ok "123" eq_refl)
      as (_ & Hno & _).
    apply (proj1 (Hno (VStr "OK") eq_refl eq_refl)). by right.
  - destruct (getBoard_extracts_unconditionally (VStr "t") initial
                (VNum 123) VNull VUndefined bad "123" eq_refl)
      as (_ & Hno & _).
    apply (proj2 (Hno (VStr "Error") eq_refl eq_refl) "no");
      [reflexivity | discriminate | reflexivity].
Defined.

Lemma url_by_interposition_witness :
  let i := GetIssueEvents (VStr "42") (VNum 7) in
  texts (identifiers i) = Ok ["42"; "7"] /\
  sent (snd (session (replying VNull VUndefined (VArr [])) (VStr "abc")
               i initial)) =
    [(GET,
      {| url := "https://api.zenhub.io/p1/repositories/42/issues/7/events"
                  ++ "?access_token=abc";
         strictSSL := true; json := true; body := None |})].
Proof.
  intros i. split; [reflexivity|].
  apply (proj1 url_by_interposition (replying VNull VUndefined (VArr []))
           (VStr "abc") i initial ["42"; "7"]).
  reflexivity.
Defined.

Lemma token_in_every_query_witness :
  let i :=
    SetEstimateForIssue (VNum 123) (VNum 9) (VObj [("estimate", VNum 3)]) in
  texts (identifiers i) = Ok ["123"; "9"] /\
  forallb plain ["123"; "9"] = true /\
  exists o,
    sent (snd (session (replying VNull VUndefined (VObj [])) (VStr "a b&c")
                 i initial)) = [(PUT, o)] /\
    url_query (url o) = "access_token=a%20b%26c" /\
    parse (url_query (url o)) = Some [("access_token", "a b&c")].
Proof.
  intros i. split; [reflexivity|]. split; [reflexivity|].
  destruct (token_in_every_query (replying VNull VUndefined (VObj []))
              "a b&c" i initial ["123"; "9"] eq_refl eq_refl)
    as (o & Hsent & _ & Hq & Hparse).
  exists o. split; [exact Hsent|]. split; [exact Hq | exact Hparse].
Defined.

(** A client whose credentials are the object 1, and a caller whose
    parameters are the object 2. *)
Lemma merge_keeps_inputs_witness :
  let C := [("access_token", VStr "t")] in
  let P := [("page", VNum 2); ("access_token", VStr "mine")] in
  let s := {| heap := <[2%positive := P]> (<[1%positive := C]> ∅);
              sent := []; calls := [] |} in
  let this := {| credentials := 1%positive |} in
  let s' :=
    snd (_get (replying VNull VUndefined (VObj [])) this "repositories/1/board"
           2%positive notify s) in
  heap s !! 2%positive = Some P /\
  heap s !! credentials this = Some C /\
  (forall e r, preserves heap (notify e r)) /\
  heap s' !! 2%positive = Some P /\
  heap s' !! credentials this = Some C /\
  objects_kept s s'.
Proof.
  intros C P s this s'.
  split; [reflexivity|]. split; [reflexivity|]. split; [exact notify_heap|].
  apply (merge_keeps_inputs (replying VNull VUndefined (VObj [])) this
           "repositories/1/board" 2%positive VUndefined notify s P C
           eq_refl eq_refl notify_heap s').
  by left.
Defined.

(** * Further properties of the client

    ** The merged parameters of a helper *)

Lemma obj_get_set_eq k v o : obj_get k (obj_set k v o) = Some v.
Proof.
  induction o as [|[k' v'] o IH]; simpl.
  - by rewrite String.eqb_refl.
  - destruct (String.eqb k' k) eqn:Hk; simpl; by rewrite Hk.
Qed.

Lemma obj_get_set_ne k k' v o :
  k <> k' -> obj_get k' (obj_set k v o) = obj_get k' o.
Proof.
  intros Hne. induction o as [|[k0 v0] o IH]; simpl.
  - by apply String.eqb_neq in Hne as ->.
  - destruct (String.eqb k0 k) eqn:Hk; simpl.
    + apply String.eqb_eq in Hk as ->.
      by apply String.eqb_neq in Hne as ->.
    + by rewrite IH.
Qed.

Lemma copy_pure_get keys : forall S T k,
  obj_get k (copy_pure S keys T) =
    if existsb (String.eqb k) keys
    then Some (match obj_get k S with Some v => v | None => VUndefined end)
    else obj_get k T.
Proof.
  induction keys as [|key keys IH]; intros S T k; simpl; [done|].
  rewrite IH. destruct (existsb (String.eqb k) keys).
  - by rewrite orb_true_r.
  - rewrite orb_false_r. destruct (String.eqb k key) eqn:Hk.
    + apply String.eqb_eq in Hk as ->. apply obj_get_set_eq.
    + apply obj_get_set_ne. intros ->. by rewrite String.eqb_refl in Hk.
Qed.

Lemma existsb_keys k (o : object) :
  existsb (String.eqb k) (map fst o) =
    match obj_get k o with Some _ => true | None => false end.
Proof.
  induction o as [|[k' v] o IH]; simpl; [done|].
  rewrite (String.eqb_sym k k'). by destruct (String.eqb k' k).
Qed.

(** A property of the merged object is the one of the credentials if
    they have it, and else the one of the parameters. *)
Lemma merged_get k P C :
  obj_get k (merged P C) =
    match obj_get k C with Some v => Some v | None => obj_get k P end.
Proof.
  unfold merged. rewrite !copy_pure_get, !existsb_keys.
  destruct (obj_get k C); [done|]. by destruct (obj_get k P).
Qed.

Lemma call_helper_run v tr this path p b cb s P C :
  heap s !! p = Some P ->
  heap s !! credentials this = Some C ->
  call_helper v tr this path p b cb s =
    completes v tr path (merged P C) (helper_body v b) cb s.
Proof.
  intros Hp Hc. destruct v; simpl.
  - by apply _get_run.
  - by apply _post_run.
  - by apply _put_run.
Qed.

Lemma call_helper_sends v tr this path p b cb s P C :
  heap s !! p = Some P ->
  heap s !! credentials this = Some C ->
  (forall e r, preserves sent (cb e r)) ->
  sent (snd (call_helper v tr this path p b cb s)) =
    (sent s ++ [(v, options_for path (merged P C) (helper_body v b))])%list.
Proof.
  intros Hp Hc Hcb. rewrite (call_helper_run _ _ _ _ _ _ _ _ P C Hp Hc).
  unfold completes. by rewrite helper_complete_preserves.
Qed.


(** ** The query string of a helper, read back *)

Lemma before_cut c a b :
  occurs c a = false -> before c (a ++ String c b) = a.
Proof.
  induction a as [|ch a IH]; simpl.
  - by rewrite Ascii.eqb_refl.
  - intros [Hc Ha]%orb_false_iff. by rewrite Hc, IH.
Qed.

Lemma split_on_cut c a b :
  occurs c a = false -> split_on c (a ++ String c b) = a :: split_on c b.
Proof.
  induction a as [|ch a IH]; simpl.
  - by rewrite Ascii.eqb_refl.
  - intros [Hc Ha]%orb_false_iff. by rewrite Hc, IH.
Qed.

Lemma append_char c y : String c "" ++ y = String c y.
Proof. reflexivity. Qed.

(** One field [key=value] of a query string. *)
Lemma field_free k x : occurs "&" (qsEscape k ++ "=" ++ qsEscape x) = false.
Proof.
  rewrite !occurs_append. simpl.
  rewrite !qsEscape_free; [reflexivity | by left | by left].
Qed.

Lemma parse_field k x rest :
  parse_pieces ((qsEscape k ++ "=" ++ qsEscape x) :: rest) =
    match parse_pieces rest with
    | Some r => Some ((k, x) :: r)
    | None => None
    end.
Proof.
  cbn [parse_pieces]. rewrite append_char.
  replace (String.eqb (qsEscape k ++ String "=" (qsEscape x)) "") with false
    by (by destruct (qsEscape k)).
  rewrite before_cut, after_append, !unescape_qsEscape;
    [reflexivity | |]; apply qsEscape_free; by right; left.
Qed.

Lemma parse_field_last k x :
  parse (qsEscape k ++ "=" ++ qsEscape x) = Some [(k, x)].
Proof.
  unfold parse. rewrite split_on_free by apply field_free.
  by rewrite parse_field.
Qed.

Lemma parse_field_more k x T :
  parse (qsEscape k ++ "=" ++ qsEscape x ++ "&" ++ T) =
    match parse T with
    | Some r => Some ((k, x) :: r)
    | None => None
    end.
Proof.
  unfold parse.
  replace (qsEscape k ++ "=" ++ qsEscape x ++ "&" ++ T)
    with ((qsEscape k ++ "=" ++ qsEscape x) ++ String "&" T)
    by (by rewrite !append_assoc).
  rewrite split_on_cut by apply field_free.
  by rewrite parse_field.
Qed.

Lemma stringify_items_more ks v0 v1 items :
  stringify_items ks (v0 :: v1 :: items) =
    ks ++ qsEscape (stringifyPrimitive v0) ++ "&"
       ++ stringify_items ks (v1 :: items).
Proof. reflexivity. Qed.

(** The fields of a non-empty array, alone and before further fields. *)
Lemma parse_items k items : forall v0,
  parse (stringify_items (qsEscape k ++ "=") (v0 :: items)) =
    Some (map (pair k) (map stringifyPrimitive (v0 :: items))) /\
  forall T r,
    parse T = Some r ->
    parse (stringify_items (qsEscape k ++ "=") (v0 :: items) ++ "&" ++ T) =
      Some (map (pair k) (map stringifyPrimitive (v0 :: items)) ++ r)%list.
Proof.
  induction items as [|v1 items IH]; intros v0.
  - cbn [stringify_items]. rewrite !append_nil_r, !append_assoc.
    split; [apply parse_field_last|].
    intros T r HT. by rewrite !append_assoc, parse_field_more, HT.
  - destruct (IH v1) as [IHa IHb]. rewrite stringify_items_more.
    set (rest := stringify_items (qsEscape k ++ "=") (v1 :: items)) in *.
    split.
    + by rewrite !append_assoc, parse_field_more, IHa.
    + intros T r HT.
      by rewrite !append_assoc, parse_field_more, (IHb T r HT).
Qed.

Lemma reads_as_field k x : reads_as (qsEscape k ++ "=" ++ qsEscape x) [(k, x)].
Proof.
  split; [apply parse_field_last|].
  intros X rX HX. by rewrite !append_assoc, parse_field_more, HX.
Qed.

Lemma reads_as_items k v0 items :
  reads_as (stringify_items (qsEscape k ++ "=") (v0 :: items))
    (map (pair k) (map stringifyPrimitive (v0 :: items))).
Proof. destruct (parse_items k items v0) as [Ha Hb]. by split. Qed.

Lemma append_nonempty a b : b <> "" -> a ++ b <> "".
Proof. destruct a; [done | discriminate]. Qed.

(** One more turn of the loop. *)
Lemma made_so_far_step fields r F rF :
  made_so_far fields r -> F <> "" -> reads_as F rF ->
  made_so_far (with_sep fields ++ F) (r ++ rF)%list.
Proof.
  intros [[-> ->] | [Hne [Hp Hmore]]] HF [HFp HFmore]; right.
  - split; [done|]. by split.
  - unfold with_sep. apply String.eqb_neq in Hne as Hb. rewrite Hb.
    split; [by apply append_nonempty|]. split.
    + rewrite append_assoc. by apply Hmore.
    + intros X rX HX. rewrite !append_assoc, <- app_assoc.
      apply Hmore. by apply HFmore.
Qed.

Lemma stringify_loop_reads o : forall fields r,
  made_so_far fields r ->
  parse (stringify_loop fields o) = Some (r ++ flatten o)%list.
Proof.
  induction o as [|[k v] o IH]; intros fields r Hm.
  - simpl. rewrite app_nil_r.
    by destruct Hm as [[-> ->] | [_ [Hp _]]].
  - assert (Hscalar : forall x,
      parse (stringify_loop
               (with_sep fields ++ (qsEscape k ++ "=") ++ qsEscape x) o) =
        Some (r ++ (k, x) :: flatten o)%list).
    { intros x. rewrite (IH _ (r ++ [(k, x)])%list).
      - by rewrite <- app_assoc.
      - rewrite append_assoc. apply made_so_far_step; [done| |].
        + apply append_nonempty. discriminate.
        + apply reads_as_field. }
    destruct v; cbn [stringify_loop flatten field_values map app];
      try apply Hscalar.
    destruct items as [|v0 items]; [by apply IH|].
    rewrite (IH _ (r ++ map (pair k)
                         (map stringifyPrimitive (v0 :: items)))%list).
    + by rewrite <- app_assoc.
    + apply made_so_far_step; [done| |apply reads_as_items].
      cbn [stringify_items]. rewrite append_assoc.
      apply append_nonempty. discriminate.
Qed.

(** Reading back undoes [querystring.stringify]. *)
Lemma parse_stringify o : parse (stringify_fields o) = Some (flatten o).
Proof.
  unfold stringify_fields.
  rewrite (stringify_loop_reads o "" []); [done|]. by left.
Qed.

Lemma occurs_single c d : c <> d -> occurs c (String d "") = false.
Proof.
  intros Hne. cbn [occurs]. rewrite orb_false_r.
  apply Ascii.eqb_neq. congruence.
Qed.

Lemma stringify_items_free c ks items :
  occurs c ks = false -> delimiter c -> c <> "&"%char ->
  occurs c (stringify_items ks items) = false.
Proof.
  intros Hks Hc Hamp. induction items as [|v items IH]; [reflexivity|].
  cbn [stringify_items]. rewrite !occurs_append, Hks, qsEscape_free, IH by done.
  destruct items; [reflexivity|]. by rewrite occurs_single.
Qed.

Lemma stringify_loop_free c o : forall fields,
  delimiter c -> c <> "&"%char -> c <> "="%char ->
  occurs c fields = false ->
  occurs c (stringify_loop fields o) = false.
Proof.
  intros fields Hc Hamp Heq. revert fields.
  induction o as [|[k v] o IH]; intros fields Hf; [exact Hf|].
  assert (Hsep : occurs c (with_sep fields) = false).
  { unfold with_sep. destruct (String.eqb fields ""); [reflexivity|].
    by rewrite occurs_append, Hf, occurs_single. }
  assert (Hks : occurs c (qsEscape k ++ "=") = false).
  { by rewrite occurs_append, qsEscape_free, occurs_single. }
  assert (Hscalar : forall x,
    occurs c (stringify_loop
                (with_sep fields ++ (qsEscape k ++ "=") ++ qsEscape x) o)
    = false).
  { intros x. apply IH.
    by rewrite !occurs_append, Hsep, (qsEscape_free c k), (qsEscape_free c x),
      occurs_single. }
  destruct v; cbn [stringify_loop]; try apply Hscalar.
  destruct items as [|v0 items]; [by apply IH|].
  apply IH. by rewrite occurs_append, Hsep, stringify_items_free.
Qed.

(** A query string made by [querystring.stringify] has no [#], [?] or
    [+] of its own. *)
Lemma stringify_fields_free c o :
  delimiter c -> c <> "&"%char -> c <> "="%char ->
  occurs c (stringify_fields o) = false.
Proof. intros Hc Hamp Heq. by apply stringify_loop_free. Qed.


(** ** The status check and the message, for any value *)

(** X3. The status check of a GET is by truth value. Without a
    transport error, every truthy [status] other than the string ["OK"]
    (a number, [true], an array, an object, another string) makes the
    call fail: the callback receives a synthesized error when the failure
    text [description || error_message] has a text, and otherwise
    [new Error] throws and the callback is not called. Every falsy
    [status] (absent, [null], [false], [0], [""]) and ["OK"] make the
    callback receive the error of the transport. *)
Theorem status_checked_by_truth
    token i s error response body ts status :
  documented_verb i = GET ->
  texts (identifiers i) = Ok ts ->
  ToBoolean error = false ->
  get_prop body "status" = Ok status ->
  let out := session (replying error response body) token i s in
  (ToBoolean status = true -> status <> VStr "OK" ->
   forall d, ToString (failure_text body) = Ok d ->
   exists m,
     fst out = Ok tt /\
     calls (snd out) =
       (calls s ++ [(VError m, documented_result i body)])%list) /\
  (ToBoolean status = false \/ status = VStr "OK" ->
   fst out = Ok tt /\
   calls (snd out) = (calls s ++ [(error, documented_result i body)])%list) /\
  (ToBoolean status = true -> status <> VStr "OK" ->
   forall e, ToString (failure_text body) = Throw e ->
   fst out = Throw e /\ calls (snd out) = calls s).
Proof.
  intros Hv Hts He Hst out. subst out.
  assert (Hf : field "status" body = status) by by apply get_prop_field.
  split; [|split].
  - intros Ht Hne d Hd.
    destruct (new_Error_text _ _ Hd) as [m Hm]. exists m.
    apply (session_delivers _ _ _ _ _ _ _ ts Hts).
    intros cb s'. rewrite Hv. simpl.
    apply get_complete_failed; eauto.
    + by rewrite Hf.
    + rewrite Hf. by apply strict_neq_value.
  - intros Hq.
    apply (session_delivers _ _ _ _ _ _ _ ts Hts).
    intros cb s'. rewrite Hv. simpl.
    apply get_complete_quiet; [done | eauto | by rewrite Hf].
  - intros Ht Hne e Hd.
    rewrite (session_replying _ _ _ _ _ _ ts Hts), Hv.
    simpl helper_complete.
    rewrite (get_complete_unconvertible _ _ _ _ _ e); eauto.
    + by rewrite Hf.
    + rewrite Hf. by apply strict_neq_value.
Qed.

Lemma status_checked_by_truth_witness :
  let i := GetEpics (VNum 1) in
  let failing := VObj [("status", VNum 404)] in
  let quiet := VObj [("status", VNum 0)] in
  let throwing :=
    VObj [("status", VNum 404);
          ("description", VObj [("toString", VNum 1)])] in
  let run body :=
    session (replying VNull VUndefined body) (VStr "t") i initial in
  documented_verb i = GET /\
  texts (identifiers i) = Ok ["1"] /\
  ToBoolean VNull = false /\
  get_prop failing "status" = Ok (VNum 404) /\
  get_prop quiet "status" = Ok (VNum 0) /\
  get_prop throwing "status" = Ok (VNum 404) /\
  (exists m, calls (snd (run failing)) = [(VError m, failing)]) /\
  calls (snd (run quiet)) = [(VNull, quiet)] /\
  (fst (run throwing) = Throw TypeError /\ calls (snd (run throwing)) = []).
Proof.
  intros i failing quiet throwing run.
  repeat (split; [reflexivity|]). split; [|split].
  - destruct (proj1 (status_checked_by_truth (VStr "t") i initial VNull
                       VUndefined failing ["1"] (VNum 404)
                       eq_refl eq_refl eq_refl eq_refl)
                eq_refl ltac:(discriminate) "undefined" eq_refl)
      as [m [_ Hm]].
    exists m. exact Hm.
  - apply (proj1 (proj2 (status_checked_by_truth (VStr "t") i initial VNull
                           VUndefined quiet ["1"] (VNum 0)
                           eq_refl eq_refl eq_refl eq_refl))).
    by left.
  - apply (proj2 (proj2 (status_checked_by_truth (VStr "t") i initial VNull
                           VUndefined throwing ["1"] (VNum 404)
                           eq_refl eq_refl eq_refl eq_refl))
             eq_refl ltac:(discriminate) TypeError eq_refl).
Defined.

(** X4. The message of a synthesized error is the text of
    [description || error_message]: the text of the [description] when
    that is truthy, else the text of the [error_message] whatever it is
    (["null"] for [null], ["0"] for [0]), and the empty message when the
    [error_message] is absent too. *)
Theorem message_is_text_of_failure
    token i s error response body ts status d :
  documented_verb i = GET ->
  texts (identifiers i) = Ok ts ->
  ToBoolean error = false ->
  get_prop body "status" = Ok status ->
  ToBoolean status = true -> status <> VStr "OK" ->
  ToString (failure_text body) = Ok d ->
  let out := session (replying error response body) token i s in
  fst out = Ok tt /\
  calls (snd out) =
    (calls s ++
     [(VError (match failure_text body with VUndefined => "" | _ => d end),
       documented_result i body)])%list /\
  failure_text body =
    (if ToBoolean (field "description" body) then field "description" body
     else field "error_message" body).
Proof.
  intros Hv Hts He Hst Ht Hne Hd out. subst out.
  assert (Hf : field "status" body = status) by by apply get_prop_field.
  assert (Hc : forall cb s',
    helper_complete (documented_verb i) cb error response body s' =
      cb (VError (match failure_text body with VUndefined => "" | _ => d end))
        (body_or_empty body) s').
  { intros cb s'. rewrite Hv. simpl.
    apply get_complete_failed; eauto.
    - by rewrite Hf.
    - rewrite Hf. by apply strict_neq_value.
    - by apply new_Error_message. }
  destruct (session_delivers _ _ _ _ token _ s ts Hts Hc) as [H1 H2].
  split; [exact H1 | split; [exact H2 | reflexivity]].
Qed.

Lemma message_is_text_of_failure_witness :
  let i := GetIssue (VNum 42) (VNum 7) in
  let body :=
    VObj [("status", VStr "Error"); ("description", VNum 0);
          ("error_message", VNull)] in
  let out := session (replying VNull VUndefined body) (VStr "t") i initial in
  documented_verb i = GET /\
  texts (identifiers i) = Ok ["42"; "7"] /\
  ToBoolean VNull = false /\
  get_prop body "status" = Ok (VStr "Error") /\
  ToBoolean (VStr "Error") = true /\
  VStr "Error" <> VStr "OK" /\
  ToString (failure_text body) = Ok "null" /\
  fst out = Ok tt /\
  calls (snd out) = [(VError "null", body)].
Proof.
  intros i body out.
  repeat (split; [first [reflexivity | discriminate]|]).
  destruct (message_is_text_of_failure (VStr "t") i initial VNull VUndefined
              body ["42"; "7"] (VStr "Error") "null"
              eq_refl eq_refl eq_refl eq_refl eq_refl
              ltac:(discriminate) eq_refl) as [_ [H2 _]].
  exact H2.
Defined.

(** ** A body that is present and falsy *)

(** X5. [body || {}] replaces every falsy body, not only an absent one:
    when the decoded body is [false], [0] or [""] (and for a POST or PUT,
    or after a transport error, also [null] or [undefined]), the callback
    receives an empty object, and the one of [getBoard] receives
    [undefined]; the body itself is not handed on. *)
Theorem falsy_body_replaced
    token i s error response body ts :
  texts (identifiers i) = Ok ts ->
  ToBoolean body = false ->
  documented_verb i <> GET \/ ToBoolean error = true \/
  (body <> VUndefined /\ body <> VNull) ->
  let out := session (replying error response body) token i s in
  fst out = Ok tt /\
  calls (snd out) =
    (calls s ++
     [(error, match i with GetBoard _ => VUndefined | _ => VObj [] end)])%list.
Proof.
  intros Hts Hb Hcase out. subst out.
  replace (match i with GetBoard _ => VUndefined | _ => VObj [] end)
    with (documented_result i body)
    by (unfold documented_result, body_or_empty; rewrite Hb; by destruct i).
  apply (session_delivers _ _ _ _ _ _ _ ts Hts).
  intros cb s'. destruct (documented_verb i) eqn:Hv; simpl;
    try reflexivity.
  destruct (ToBoolean error) eqn:He; [by apply get_complete_error|].
  destruct Hcase as [Hc | [Hc | [Hu Hn]]]; try done.
  apply get_complete_quiet; [done | |].
  - destruct body; try done; by eexists.
  - left. by destruct body.
Qed.

Lemma falsy_body_replaced_witness :
  let i := GetIssue (VNum 42) (VNum 7) in
  let out :=
    session (replying VNull VUndefined (VNum 0)) (VStr "t") i initial in
  texts (identifiers i) = Ok ["42"; "7"] /\
  ToBoolean (VNum 0) = false /\
  (documented_verb i <> GET \/ ToBoolean VNull = true \/
   (VNum 0 <> VUndefined /\ VNum 0 <> VNull)) /\
  fst out = Ok tt /\
  calls (snd out) = [(VNull, VObj [])].
Proof.
  intros i out.
  split; [reflexivity|]. split; [reflexivity|].
  assert (H : documented_verb i <> GET \/ ToBoolean VNull = true \/
              (VNum 0 <> VUndefined /\ VNum 0 <> VNull))
    by (right; right; split; discriminate).
  split; [exact H|].
  apply (falsy_body_replaced (VStr "t") i initial VNull VUndefined (VNum 0)
           ["42"; "7"] eq_refl eq_refl H).
Defined.

(** ** Identifiers are not validated *)

Lemma ToString_primitive v :
  primitive v = true -> exists t, ToString v = Ok t.
Proof. destruct v; simpl; try discriminate; eauto. Qed.

Lemma texts_primitive l :
  forallb primitive l = true -> exists ts, texts l = Ok ts.
Proof.
  induction l as [|v l IH]; simpl; [eauto|].
  intros [Hv Hl]%andb_true_iff.
  destruct (ToString_primitive v Hv) as [t ->].
  destruct (IH Hl) as [ts ->]. eauto.
Qed.

(** X6. No method checks its identifiers: whatever primitive values
    they are, also [undefined], [null] or a boolean, the method sends its
    one request, with their texts in the path. *)
Theorem identifiers_not_validated tr token i s :
  forallb primitive (identifiers i) = true ->
  exists ts,
    texts (identifiers i) = Ok ts /\
    sent (snd (session tr token i s)) =
      (sent s ++
       [(documented_verb i,
         {| url := API_URL ++ "/" ++ interpose (documented_path i) ts
                     ++ "?" ++ stringify_fields [("access_token", token)];
            strictSSL := true; json := true; body := payload i |})])%list.
Proof.
  intros Hp. destruct (texts_primitive _ Hp) as [ts Hts].
  exists ts. split; [exact Hts|]. by apply session_sends.
Qed.

Lemma identifiers_not_validated_witness :
  let i := GetIssue VUndefined VNull in
  forallb primitive (identifiers i) = true /\
  sent (snd (session (replying VNull VUndefined (VObj [])) (VStr "t") i
               initial)) =
    [(GET,
      {| url := "https://api.zenhub.io/p1/repositories/undefined/issues/null"
                  ++ "?access_token=t";
         strictSSL := true; json := true; body := None |})].
Proof.
  intros i. split; [reflexivity|].
  destruct (identifiers_not_validated (replying VNull VUndefined (VObj []))
              (VStr "t") i initial eq_refl) as [ts [Hts Hs]].
  injection Hts as <-. exact Hs.
Defined.

(** A method whose identifiers have no texts throws at once. *)
Lemma invoke_throws tr this i cb s e :
  texts (identifiers i) = Throw e ->
  invoke tr this i cb s = (Throw e, s).
Proof.
  intros Hts.
  destruct i; simpl in Hts;
    repeat match type of Hts with
           | context [ToString ?v] => destruct (ToString v) eqn:?
           end;
    try discriminate; injection Hts as <-; simpl;
    cbv [getBoard getIssue getIssueEvents getEpics getEpicData
         addRemoveIssuesToEpic convertIssueToEpic setEstimateForIssue
         bind lift concat];
    repeat match goal with
           | H : ToString _ = _ |- _ => rewrite H; clear H
           end;
    reflexivity.
Qed.

(** X7. An identifier without a string conversion (an object whose own
    [toString] property hides the method) makes the method throw while
    it builds the path: nothing is allocated, no request is sent and the
    callback is not called. *)
Theorem unconvertible_identifier_throws tr this i cb s e :
  texts (identifiers i) = Throw e ->
  let out := invoke tr this i cb s in
  fst out = Throw e /\ snd out = s /\
  sent (snd out) = sent s /\ calls (snd out) = calls s.
Proof.
  intros Hts out. subst out.
  by rewrite (invoke_throws tr this i cb s e Hts).
Qed.

Lemma unconvertible_identifier_throws_witness :
  let i := GetIssue (VNum 42) (VObj [("toString", VNum 1)]) in
  let this := {| credentials := 1%positive |} in
  texts (identifiers i) = Throw TypeError /\
  invoke (replying VNull VUndefined (VObj [])) this i notify initial =
    (Throw TypeError, initial).
Proof.
  intros i this. split; [reflexivity|].
  destruct (unconvertible_identifier_throws
              (replying VNull VUndefined (VObj [])) this i notify initial
              TypeError eq_refl) as [H1 [H2 _]].
  rewrite <- H1, <- H2. by destruct (invoke _ this i notify initial).
Defined.

(** ** Identifiers are not escaped *)

Lemma after_in c a b : occurs c a = true -> after c (a ++ b) = after c a ++ b.
Proof.
  induction a as [|ch a IH]; simpl; [discriminate|].
  destruct (Ascii.eqb ch c); [reflexivity | exact IH].
Qed.

Lemma after_skip c a b : occurs c a = false -> after c (a ++ b) = after c b.
Proof.
  induction a as [|ch a IH]; simpl; [reflexivity|].
  intros [-> Ha]%orb_false_iff. by apply IH.
Qed.

Lemma after_none c a : occurs c a = false -> after c a = "".
Proof.
  induction a as [|ch a IH]; simpl; [reflexivity|].
  intros [-> Ha]%orb_false_iff. by apply IH.
Qed.

Lemma before_in c a b : occurs c a = true -> before c (a ++ b) = before c a.
Proof.
  induction a as [|ch a IH]; simpl; [discriminate|].
  destruct (Ascii.eqb ch c); [reflexivity|].
  intros Ha. by rewrite IH.
Qed.

Lemma before_skip c a b :
  occurs c a = false -> before c (a ++ b) = a ++ before c b.
Proof.
  induction a as [|ch a IH]; simpl; [reflexivity|].
  intros [-> Ha]%orb_false_iff. by rewrite IH.
Qed.

Lemma occurs_before d c a : occurs d a = false -> occurs d (before c a) = false.
Proof.
  induction a as [|ch a IH]; simpl; [reflexivity|].
  intros [Hd Ha]%orb_false_iff.
  destruct (Ascii.eqb ch c); [reflexivity|]. simpl. by rewrite Hd, IH.
Qed.

Lemma length_append a b :
  String.length (a ++ b) = (String.length a + String.length b)%nat.
Proof.
  induction a as [|ch a IH]; [reflexivity|].
  rewrite append_cons. simpl. by rewrite IH.
Qed.

(** Where a [?] or a [#] can be in a path: in the text of an
    identifier. *)
Lemma path_occurs c i ts :
  c = "?"%char \/ c = "#"%char ->
  texts (identifiers i) = Ok ts ->
  occurs c (interpose (documented_path i) ts) = existsb (occurs c) ts.
Proof.
  intros Hc Hts.
  destruct i; simpl in Hts;
    repeat match type of Hts with
           | context [ToString ?v] => destruct (ToString v); try discriminate
           end;
    injection Hts as <-;
    cbn [interpose documented_path nth existsb];
    rewrite ?occurs_append;
    destruct Hc as [-> | ->]; simpl;
    rewrite ?orb_false_r; reflexivity.
Qed.

(** X8. No method escapes its identifiers. When the text of an
    identifier has a [?] (and none has a [#]), the query of the URL
    begins inside the path, at that [?], and is not the query string the
    client made; when the text of an identifier has a [#] (and none has
    a [?]), the URL has no query at all, so that the credential does not
    reach the server as a parameter. *)
Theorem identifiers_not_escaped tr t i s ts :
  texts (identifiers i) = Ok ts ->
  exists o,
    sent (snd (session tr (VStr t) i s)) =
      (sent s ++ [(documented_verb i, o)])%list /\
    (existsb (occurs "?") ts = true -> existsb (occurs "#") ts = false ->
     url_query (url o) =
       after "?" (interpose (documented_path i) ts)
         ++ "?access_token=" ++ qsEscape t /\
     url_query (url o) <> "access_token=" ++ qsEscape t) /\
    (existsb (occurs "#") ts = true -> existsb (occurs "?") ts = false ->
     url_query (url o) = "").
Proof.
  intros Hts. eexists.
  split; [exact (session_sends tr (VStr t) i s ts Hts)|].
  unfold options_for. cbn [url]. rewrite stringify_token.
  set (path := interpose (documented_path i) ts).
  assert (Hq : forall c, c = "?"%char \/ c = "#"%char ->
             occurs c path = existsb (occurs c) ts)
    by (intros c Hc; by apply path_occurs).
  split.
  - intros Hquestion Hhash.
    assert (Hquery : url_query
              (API_URL ++ "/" ++ path ++ "?" ++ "access_token=" ++ qsEscape t)
            = after "?" path ++ "?access_token=" ++ qsEscape t).
    { unfold url_query. rewrite before_free.
      - rewrite (after_skip "?" API_URL) by reflexivity.
        rewrite (after_skip "?" "/") by reflexivity.
        rewrite after_in by (by rewrite Hq; [|left]).
        reflexivity.
      - rewrite !occurs_append, Hq by (by right).
        rewrite Hhash, qsEscape_free by (by right; right; left).
        reflexivity. }
    split; [exact Hquery|].
    rewrite Hquery. intros Heq.
    apply (f_equal String.length) in Heq.
    rewrite length_append in Heq.
    change ("?access_token=" ++ qsEscape t)
      with (String "?" ("access_token=" ++ qsEscape t)) in Heq.
    simpl in Heq. lia.
  - intros Hhash Hquestion. unfold url_query.
    rewrite (before_skip "#" API_URL) by reflexivity.
    rewrite (before_skip "#" "/") by reflexivity.
    rewrite before_in by (by rewrite Hq; [|right]).
    apply after_none.
    rewrite !occurs_append, occurs_before; [reflexivity|].
    by rewrite Hq; [|left].
Qed.

Lemma identifiers_not_escaped_witness :
  let tr := replying VNull VUndefined (VObj []) in
  texts (identifiers (GetBoard (VStr "1?x=2"))) = Ok ["1?x=2"] /\
  texts (identifiers (GetBoard (VStr "1#"))) = Ok ["1#"] /\
  (exists o,
     sent (snd (session tr (VStr "t") (GetBoard (VStr "1?x=2")) initial)) =
       [(GET, o)] /\
     url_query (url o) = "x=2/board?access_token=t") /\
  (exists o,
     sent (snd (session tr (VStr "t") (GetBoard (VStr "1#")) initial)) =
       [(GET, o)] /\
     url_query (url o) = "").
Proof.
  intros tr. split; [reflexivity|]. split; [reflexivity|]. split.
  - destruct (identifiers_not_escaped tr "t" (GetBoard (VStr "1?x=2"))
                initial ["1?x=2"] eq_refl) as (o & Hs & Hq & _).
    exists o. split; [exact Hs|].
    exact (proj1 (Hq eq_refl eq_refl)).
  - destruct (identifiers_not_escaped tr "t" (GetBoard (VStr "1#"))
                initial ["1#"] eq_refl) as (o & Hs & _ & Hh).
    exists o. split; [exact Hs|].
    exact (Hh eq_refl eq_refl).
Defined.

(** ** Several calls, on several clients *)

Lemma helper_complete_cases v cb e r b s :
  helper_complete v cb e r b s = (Throw TypeError, s) \/
  exists e', helper_complete v cb e r b s = cb e' (body_or_empty b) s.
Proof.
  destruct v; simpl; [apply get_complete_cases | right; eauto..].
Qed.

Lemma objects_kept_trans s1 s2 s3 :
  objects_kept s1 s2 -> objects_kept s2 s3 -> objects_kept s1 s3.
Proof. intros H12 H23 l o Hl. by apply H23, H12. Qed.

Lemma with_parameters_keeps s : objects_kept s (with_parameters s).
Proof.
  intros l o Hl. simpl. rewrite lookup_insert_ne; [done|].
  apply not_eq_sym, allocated_not_fresh. eauto.
Qed.

(** One call with the recording callback: its request, its callback and
    the store. *)
Lemma invoke_step tr this i s token :
  heap s !! credentials this = Some [("access_token", token)] ->
  let out := invoke tr this i notify s in
  objects_kept s (snd out) /\
  match texts (identifiers i) with
  | Throw _ =>
      fst out = Throw TypeError /\
      sent (snd out) = sent s /\ calls (snd out) = calls s
  | Ok ts =>
      sent (snd out) = (sent s ++ [request_of token i ts])%list /\
      (fst out = Ok tt /\
       (exists c, calls (snd out) = (calls s ++ [c])%list) \/
       fst out = Throw TypeError /\ calls (snd out) = calls s)
  end.
Proof.
  intros Hc out. subst out.
  destruct (texts (identifiers i)) as [ts|[]] eqn:Hts.
  - rewrite (invoke_run _ _ _ _ _ ts _ Hts Hc).
    change (merged [] [("access_token", token)])
      with [("access_token", token)].
    split.
    { eapply objects_kept_trans; [apply with_parameters_keeps|].
      apply completes_keeps, deliver_preserves. auto with frame. }
    unfold completes.
    match goal with
    | |- context [helper_complete ?v ?cb ?e ?r ?b ?s1] =>
        destruct (helper_complete_cases v cb e r b s1) as [H | [e' H]];
          rewrite H
    end.
    + split; [reflexivity|]. by right.
    + rewrite deliver_notify. split; [reflexivity|].
      left. split; [reflexivity|]. by eexists.
  - rewrite (invoke_throws _ _ _ _ _ _ Hts).
    split; [by intros l o Hl | done].
Qed.

Lemma credentials_stored_kept token_of c l s s' :
  credentials_stored token_of (c :: l) s ->
  objects_kept s s' ->
  credentials_stored token_of l s'.
Proof. intros Hst Hk c' Hin. apply Hk, Hst. by right. Qed.

Lemma invoke_each_cons tr this i l s :
  invoke_each tr ((this, i) :: l) s =
    match invoke tr this i notify s with
    | (Ok _, s1) => invoke_each tr l s1
    | (Throw e, s1) => (Throw e, s1)
    end.
Proof. reflexivity. Qed.

Lemma omap_request_cons token_of this i l :
  omap (request_for token_of) ((this, i) :: l) =
    match texts (identifiers i) with
    | Ok ts =>
        request_of (token_of (credentials this)) i ts
          :: omap (request_for token_of) l
    | Throw _ => omap (request_for token_of) l
    end.
Proof.
  cbn [omap list_omap]. unfold request_for at 1. cbn [fst snd].
  by destruct (texts (identifiers i)).
Qed.


(** ** A body that is not an object *)

(** X10. A GET whose decoded body is not an object (a text that is not
    JSON, a number, a boolean or an array) is reported as a success: such
    a body has no [status], so without a transport error no error is
    synthesized, and the callback receives the error of the transport
    and [body || {}]; the one of [getBoard] receives [undefined]. *)
Theorem non_object_body_is_success
    token i s error response body ts :
  documented_verb i = GET ->
  texts (identifiers i) = Ok ts ->
  ToBoolean error = false ->
  (forall props, body <> VObj props) ->
  body <> VUndefined -> body <> VNull ->
  let out := session (replying error response body) token i s in
  fst out = Ok tt /\
  calls (snd out) =
    (calls s ++
     [(error,
       match i with
       | GetBoard _ => VUndefined
       | _ => if ToBoolean body then body else VObj []
       end)])%list.
Proof.
  intros Hv Hts He Hobj Hu Hn out. subst out.
  replace (match i with
           | GetBoard _ => VUndefined
           | _ => if ToBoolean body then body else VObj []
           end)
    with (documented_result i body).
  - apply (session_delivers _ _ _ _ _ _ _ ts Hts).
    intros cb s'. rewrite Hv. simpl.
    apply get_complete_quiet; [done | |].
    + destruct body; try done; by eexists.
    + left. destruct body; try done. by destruct (Hobj props).
  - unfold documented_result, body_or_empty.
    destruct i; try reflexivity.
    destruct (ToBoolean body); [|reflexivity].
    destruct body; try reflexivity. by destruct (Hobj props).
Qed.

Lemma non_object_body_is_success_witness :
  let i := GetEpicData (VNum 1) (VNum 2) in
  let body := VStr "<html>Bad Gateway</html>" in
  let out := session (replying VNull VUndefined body) (VStr "t") i initial in
  documented_verb i = GET /\
  texts (identifiers i) = Ok ["1"; "2"] /\
  ToBoolean VNull = false /\
  (forall props, body <> VObj props) /\
  body <> VUndefined /\ body <> VNull /\
  fst out = Ok tt /\
  calls (snd out) = [(VNull, body)].
Proof.
  intros i body out.
  split; [reflexivity|]. split; [reflexivity|]. split; [reflexivity|].
  split; [discriminate|]. split; [discriminate|]. split; [discriminate|].
  apply (non_object_body_is_success (VStr "t") i initial VNull VUndefined
           body ["1"; "2"] eq_refl eq_refl eq_refl);
    discriminate.
Defined.

(** ** The further properties at concrete calls *)



